(** * Mouse_fmriPype: the BOLD preprocessing workflow and its confound
    regression engine

    A shallow embedding of [preprocess_bold_pkg/confounds.py] and
    [preprocess_bold_pkg/main_wf.py].

    - Python exceptions are values of [exn]; fallible code returns
      [result A = exn + A].
    - The libraries the code calls (the builtin [float], numpy's mean,
      nilearn's masking, cleaning and smoothing) are the fields of the class
      [Library]; the code is embedded over an arbitrary instance.
    - Calls that leave the process (nilearn calls, files written) are logged
      as a list of [event]s, in program order.
    - A nipype workflow is the list of port-to-port edges its [connect] calls
      add; its stages are the Python variables that hold the nodes. *)

From Stdlib Require Import QArith Ascii.
From stdpp Require Import base list strings gmap relations.

Open Scope string_scope.
Open Scope nat_scope.
Open Scope list_scope.
Open Scope stdpp_scope.

(** ** Python exceptions and fallible results *)

Inductive exn :=
| ValueError
| IndexError
| LibraryError.

Definition result := sum exn.

#[global] Instance result_ret : MRet result := λ A, inr.
#[global] Instance result_bind : MBind result :=
  λ A B f m, match m with inl e => inl e | inr a => f a end.

(** [range(a, b)] *)
Definition range (a b : nat) : list nat := seq a (b - a).

(** ** Libraries called by the code *)

(** The arguments of one [nilearn.image.clean_img] call. *)
Record clean_args (val : Type) := CleanArgs {
  detrend : bool;
  standardize : bool;
  high_pass : Q;
  confounds : list (list val);
  t_r : Q
}.
Arguments CleanArgs {val}.
Arguments detrend {val}.
Arguments standardize {val}.
Arguments high_pass {val}.
Arguments confounds {val}.
Arguments t_r {val}.

Class Library := {
  (** a float64 array cell, and the [0.0] that [np.zeros] fills with *)
  val : Type;
  zero : val;
  (** the builtin [float(s)]; [None] is its [ValueError] *)
  py_float : string → option val;
  (** [np.mean] of one row *)
  np_mean : list val → val;
  (** an image file; a 4-D series has [n_volumes] time points *)
  image : Type;
  n_volumes : image → nat;
  (** [nilearn.masking.apply_mask(bold, mask)]: a (time points x voxels)
      array *)
  apply_mask : image → image → result (list (list val));
  apply_mask_rows b m s : apply_mask b m = inr s → length s = n_volumes b;
  (** [nilearn.image.clean_img] and [nilearn.image.smooth_img] *)
  clean_img : image → clean_args val → result image;
  smooth_img : image → Q → result image
}.

(** ** numpy arrays as lists of rows *)

Abbreviation matrix := (list (list val)).

Section Arrays.
Context `{L : Library}.

(** [np.zeros([r, c])] for non-negative [r] *)
Definition np_zeros (r c : nat) : matrix := replicate r (replicate c zero).

(** [a[j, k] = v]: numpy raises IndexError out of bounds *)
Definition setitem2 (a : matrix) (j k : nat) (v : val) : result matrix :=
  match a !! j with
  | None => inl IndexError
  | Some r =>
      if decide (k < length r) then inr (<[j := <[k := v]> r]> a)
      else inl IndexError
  end.

(** ** [extract_rigid_movpar]

    The argument is the list of rows that [csv.reader] yields for the
    motion-parameter file. *)

(** [for i in range(2,len(row)): movpar[j,i-2]=float(row[i])] *)
Fixpoint fill_fields (row : list string) (idx : list nat) (j : nat)
    (movpar : matrix) : result matrix :=
  match idx with
  | [] => inr movpar
  | i :: idx' =>
      match row !! i with
      | None => inl IndexError
      | Some s =>
          match py_float s with
          | None => inl ValueError
          | Some v =>
              movpar' ← setitem2 movpar j (i - 2) v;
              fill_fields row idx' j movpar'
          end
      end
  end.

(** [for row in temp[1:]: ...; j=j+1] *)
Fixpoint fill_rows (rows : list (list string)) (j : nat) (movpar : matrix)
    : result matrix :=
  match rows with
  | [] => inr movpar
  | row :: rest =>
      movpar' ← fill_fields row (range 2 (length row)) j movpar;
      fill_rows rest (j + 1) movpar'
  end.

Definition extract_rigid_movpar (temp : list (list string)) : result matrix :=
  (* np.zeros([len(temp)-1, 6]) raises ValueError on a negative dimension *)
  if decide (length temp = 0) then inl ValueError
  else fill_rows (tail temp) 0 (np_zeros (length temp - 1) 6).

(** [a[:, k] = v] for a 1-D [v]: numpy broadcasts a length-1 [v] to every
    row and raises ValueError on any other length mismatch.  [k] is a literal
    below the row width at every call. *)
Definition setcol (a : matrix) (k : nat) (v : list val) : result matrix :=
  if decide (length v = length a) then
    inr (zip_with (λ r x, <[k := x]> r) a v)
  else
    match v with
    | [x] => inr ((λ r, <[k := x]> r) <$> a)
    | _ => inl ValueError
    end.

(** [a[:, lo:hi] = b] for a 2-D [b] whose rows are [hi - lo] wide: numpy
    broadcasts a one-row [b] to every row and raises ValueError on any other
    row-count mismatch. *)
Definition setblock (a : matrix) (lo hi : nat) (b : matrix) : result matrix :=
  let put r br := take lo r ++ br ++ drop hi r in
  if decide (length b = length a) then inr (zip_with put a b)
  else
    match b with
    | [br] => inr ((λ r, put r br) <$> a)
    | _ => inl ValueError
    end.

(** [np.r_[a0:b0, a1:b1, ...]] *)
Definition np_r_ (slices : list (nat * nat)) : list nat :=
  slices ≫= λ s, range s.1 s.2.

(** [a[:, idx]]: IndexError when an index is outside a row *)
Definition getcols (a : matrix) (idx : list nat) : result matrix :=
  match mapM (λ r : list val, mapM (λ i, r !! i) idx) a with
  | Some m => inr m
  | None => inl IndexError
  end.

End Arrays.

(** ** Effects: the log of library calls and files written *)

Section Engine.
Context `{L : Library}.

(** One field of a line of the CSV file that [DataFrame.to_csv] writes. *)
Inductive csv_field :=
| Label (s : string)
| RowIndex (i : nat)
| Cell (v : val).

Inductive event :=
| Call_apply_mask (bold mask : image)
| Call_clean_img (bold : image) (a : clean_args val)
| Call_smooth_img (img : image) (fwhm : Q)
| To_csv (path : string) (lines : list (list csv_field))
| To_filename (path : string) (img : image).

(** A computation logs events and returns or raises. *)
Definition M (A : Type) : Type := list event * result A.

#[global] Instance M_ret : MRet M := λ A a, ([], inr a).
#[global] Instance M_bind : MBind M :=
  λ A B f m,
    match m with
    | (t, inl e) => (t, inl e)
    | (t, inr a) => let '(t', r) := f a in (t ++ t', r)
    end.

Definition emit (e : event) : M unit := ([e], inr ()).
Definition lift {A} (r : result A) : M A := ([], r).

(** ** [write_confound_csv] *)

(** [DataFrame.to_csv] with the default [RangeIndex]: a header line that
    starts with the empty index label, then one line per row, each starting
    with the row's index. *)
Definition to_csv (columns : list string) (data : matrix)
    : list (list csv_field) :=
  (Label "" :: (Label <$> columns))
    :: imap (λ i r, RowIndex i :: (Cell <$> r)) data.

Definition write_confound_csv (confound_array : matrix)
    (column_names : list string) : M string :=
  (* df.columns=column_names raises ValueError on a length mismatch *)
  if decide (Forall (λ r, length r = length column_names) confound_array) then
    let csv_path := "confounds.csv" in
    _ ← emit (To_csv csv_path (to_csv column_names confound_array));
    mret csv_path
  else lift (inl ValueError).

(** Modelled from the spec: the reader of the confound table, which the
    sources do not contain.  It reads the table back as "9 named columns, one
    row per volume": the header gives the column names after the index
    label, every other line gives one row of cells after its row index, and
    a line whose width differs from the header's is refused. *)
Definition read_confound_csv (lines : list (list csv_field))
    : option (list string * matrix) :=
  match lines with
  | (Label _ :: header) :: rows =>
      columns ← mapM (λ f, match f with Label s => Some s | _ => None end)
                  header;
      data ← mapM (λ line,
                match line with
                | RowIndex _ :: cells =>
                    mapM (λ f, match f with Cell v => Some v | _ => None end)
                      cells
                | _ => None
                end) rows;
      if decide (Forall (λ r, length r = length columns) data)
      then Some (columns, data) else None
  | _ => None
  end.

(** ** [clean_bold] *)

Definition clean_bold (bold : image) (confounds_array : matrix) : M string :=
  let a := CleanArgs true true (1 # 100) confounds_array (12 # 10) in
  _ ← emit (Call_clean_img bold a);
  regressed_bold ← lift (clean_img bold a);
  _ ← emit (Call_smooth_img regressed_bold (3 # 10));
  cleaned ← lift (smooth_img regressed_bold (3 # 10));
  let cleaned_path := "cleaned.nii.gz" in
  _ ← emit (To_filename cleaned_path cleaned);
  mret cleaned_path.

(** ** [extract_mask_trace] *)

Definition extract_mask_trace (bold mask : image) : M (list val) :=
  _ ← emit (Call_apply_mask bold mask);
  mask_signal ← lift (apply_mask bold mask);
  mret (np_mean <$> mask_signal).

(** ** [ConfoundRegression] *)

Record ConfoundRegressionInputSpec := {
  bold : image;
  movpar_file : list (list string);
  brain_mask : image;
  WM_mask : image;
  CSF_mask : image;
  apply_GSR : bool;
  motioncorr_24params : bool
}.

Record ConfoundRegressionOutputSpec := {
  cleaned_bold : string;
  confounds_csv : string
}.

Definition csv_columns : list string :=
  ["WM_signal"; "CSF_signal"; "global_signal";
   "mov1"; "mov2"; "mov3"; "rot1"; "rot2"; "rot3"].

(** The statements of [_run_interface] up to the assembled matrix. *)
Definition assemble_confounds (inputs : ConfoundRegressionInputSpec)
    : M matrix :=
  let num_confounds := 9 in
  WM_signal ← extract_mask_trace (bold inputs) (WM_mask inputs);
  let confounds := np_zeros (length WM_signal) num_confounds in
  confounds ← lift (setcol confounds 0 WM_signal);
  CSF_signal ← extract_mask_trace (bold inputs) (CSF_mask inputs);
  confounds ← lift (setcol confounds 1 CSF_signal);
  global_signal ← extract_mask_trace (bold inputs) (brain_mask inputs);
  confounds ← lift (setcol confounds 2 global_signal);
  movpar ← lift (extract_rigid_movpar (movpar_file inputs));
  lift (setblock confounds 3 9 movpar).

(** The result is the pair of attributes that [_list_outputs] reads back. *)
Definition _run_interface (inputs : ConfoundRegressionInputSpec)
    : M ConfoundRegressionOutputSpec :=
  confounds ← assemble_confounds inputs;
  confounds_csv ← write_confound_csv confounds csv_columns;
  cleaned ←
    (if apply_GSR inputs then clean_bold (bold inputs) confounds
     else
       selected ← lift (getcols confounds (np_r_ [(0, 3); (4, 9)]));
       clean_bold (bold inputs) selected);
  mret {| cleaned_bold := cleaned; confounds_csv := confounds_csv |}.

(** The inputs of a node built as [ConfoundRegression(apply_GSR=g, ...)]. *)
Definition with_GSR (g : bool) (inputs : ConfoundRegressionInputSpec)
    : ConfoundRegressionInputSpec :=
  {| bold := bold inputs;
     movpar_file := movpar_file inputs;
     brain_mask := brain_mask inputs;
     WM_mask := WM_mask inputs;
     CSF_mask := CSF_mask inputs;
     apply_GSR := g;
     motioncorr_24params := motioncorr_24params inputs |}.

End Engine.

(** ** nipype workflows

    [Workflow.connect] adds the two nodes of every connection to the graph
    and one edge per port pair; it raises when the destination port is
    already bound.  A node that is created but never connected is not part
    of the graph.  nipype also refuses a port that its node does not
    declare; that check needs the interfaces of the nodes, several of which
    are not in the sources, and is not part of [connect] here: it is stated
    apart, as [ports_exist], for the interfaces the sources define. *)

Section Workflow.
Context {stage : Type} `{EqDecision stage}.

Record edge := Edge {
  src : stage;
  src_port : string;
  dst : stage;
  dst_port : string
}.

Record workflow := Workflow {
  wf_name : string;
  wf_edges : list edge
}.

(** One element of the list given to [connect]:
    [(u, v, [(out, in), ...])]. *)
Definition connection : Type := stage * stage * list (string * string).

Definition bound (g : list edge) (v : stage) (p : string) : bool :=
  bool_decide (Exists (λ e, dst e = v ∧ dst_port e = p) g).

Fixpoint connect_ports (g : list edge) (u v : stage)
    (ports : list (string * string)) : result (list edge) :=
  match ports with
  | [] => inr g
  | (a, b) :: rest =>
      if bound g v b then inl LibraryError
      else connect_ports (g ++ [Edge u a v b]) u v rest
  end.

Fixpoint connect_list (g : list edge) (cl : list connection)
    : result (list edge) :=
  match cl with
  | [] => inr g
  | (u, v, ports) :: rest =>
      g' ← connect_ports g u v ports;
      connect_list g' rest
  end.

Definition connect (wf : workflow) (cl : list connection) : result workflow :=
  g ← connect_list (wf_edges wf) cl;
  mret (Workflow (wf_name wf) g).

(** The stages of the graph, and the edges that touch a stage. *)
Definition wf_nodes (wf : workflow) : list stage :=
  remove_dups (wf_edges wf ≫= λ e, [src e; dst e]).

Definition touches (e : edge) (s : stage) : Prop := src e = s ∨ dst e = s.

#[global] Instance touches_dec e s : Decision (touches e s).
Proof. unfold touches. apply _. Defined.

(** The producer bound to an input port. *)
Definition producer (wf : workflow) (v : stage) (p : string)
    : list (stage * string) :=
  (λ e, (src e, src_port e))
    <$> filter (λ e, dst e = v ∧ dst_port e = p) (wf_edges wf).

End Workflow.

Arguments edge : clear implicits.
Arguments workflow : clear implicits.
Arguments connection : clear implicits.

(** The interfaces of the nodes of the confound workflow. *)
Inductive interface :=
| IdentityInterface (fields : list string)
| MaskEPI (use_transforms : bool)
| Skullstrip
| ConfoundRegression (apply_GSR motioncorr_24params : bool).

Record Node := MkNode {
  node_interface : interface;
  node_name : string
}.

(** ** [init_bold_confs_wf] *)

Module Confs.

(** The Python variables that hold the nodes. *)
Inductive stage :=
| inputnode
| outputnode
| WM_mask_to_EPI
| CSF_mask_to_EPI
| brain_mask_to_EPI
| propagate_labels
| skullstrip
| confound_regression
| GSR_confound_regression.

#[global] Instance stage_eq_dec : EqDecision stage.
Proof. solve_decision. Defined.

(** The node bound to each variable; [GSR_confound_regression] is bound only
    under [if apply_GSR:]. *)
Definition node (apply_GSR : bool) (s : stage) : option Node :=
  match s with
  | inputnode =>
      Some (MkNode (IdentityInterface
        ["bold"; "ref_bold"; "movpar_file"; "t1_mask"; "t1_labels";
         "WM_mask"; "CSF_mask"]) "inputnode")
  | outputnode =>
      Some (MkNode (IdentityInterface
        ["cleaned_bold"; "GSR_cleaned_bold"; "EPI_labels"; "confounds_csv"])
        "outputnode")
  | WM_mask_to_EPI => Some (MkNode (MaskEPI false) "WM_mask_EPI")
  | CSF_mask_to_EPI => Some (MkNode (MaskEPI false) "CSF_mask_EPI")
  | brain_mask_to_EPI => Some (MkNode (MaskEPI false) "Brain_mask_EPI")
  | propagate_labels => Some (MkNode (MaskEPI false) "prop_labels_EPI")
  | skullstrip => Some (MkNode Skullstrip "skullstrip")
  | confound_regression =>
      Some (MkNode (ConfoundRegression false false) "confound_regression")
  | GSR_confound_regression =>
      if apply_GSR then
        Some (MkNode (ConfoundRegression true false) "GSR_confound_regression")
      else None
  end.

Record built := Built {
  nodes : stage → option Node;
  graph : workflow stage
}.

Definition init_bold_confs_wf (apply_GSR : bool) (name : string)
    : result built :=
  let workflow := Workflow name [] in
  workflow ← connect workflow [
    (inputnode, WM_mask_to_EPI, [
      ("WM_mask", "mask");
      ("ref_bold", "ref_EPI")]);
    (inputnode, CSF_mask_to_EPI, [
      ("CSF_mask", "mask");
      ("ref_bold", "ref_EPI")]);
    (inputnode, brain_mask_to_EPI, [
      ("t1_mask", "mask");
      ("ref_bold", "ref_EPI")]);
    (inputnode, propagate_labels, [
      ("t1_labels", "mask");
      ("ref_bold", "ref_EPI")]);
    (inputnode, confound_regression, [
      ("movpar_file", "movpar_file")]);
    (inputnode, skullstrip, [
      ("bold", "in_file")]);
    (brain_mask_to_EPI, skullstrip, [
      ("EPI_mask", "brain_mask")]);
    (skullstrip, confound_regression, [
      ("skullstrip_brain", "bold")]);
    (WM_mask_to_EPI, confound_regression, [
      ("EPI_mask", "WM_mask")]);
    (CSF_mask_to_EPI, confound_regression, [
      ("EPI_mask", "CSF_mask")]);
    (brain_mask_to_EPI, confound_regression, [
      ("EPI_mask", "brain_mask")]);
    (propagate_labels, outputnode, [
      ("EPI_mask", "EPI_labels")]);
    (confound_regression, outputnode, [
      ("cleaned_bold", "cleaned_bold");
      ("confounds_csv", "confounds_csv")])
  ];
  workflow ←
    (if apply_GSR then
       connect workflow [
         (inputnode, GSR_confound_regression, [
           ("movpar_file", "movpar_file")]);
         (skullstrip, GSR_confound_regression, [
           ("skullstrip_brain", "bold")]);
         (WM_mask_to_EPI, GSR_confound_regression, [
           ("EPI_mask", "WM_mask")]);
         (CSF_mask_to_EPI, GSR_confound_regression, [
           ("EPI_mask", "CSF_mask")]);
         (brain_mask_to_EPI, GSR_confound_regression, [
           ("EPI_mask", "brain_mask")]);
         (GSR_confound_regression, outputnode, [
           ("cleaned_bold", "GSR_cleaned_bold")])
       ]
     else mret workflow);
  mret (Built (node apply_GSR) workflow).

(** The stages of a built workflow that hold a [ConfoundRegression] node. *)
Definition regression_flag (b : built) (s : stage) : option bool :=
  match nodes b s with
  | Some (MkNode (ConfoundRegression g _) _) => Some g
  | _ => None
  end.

End Confs.

(** ** [main_wf.py] *)

Module Main.

(** What the code reads from the BOLD file: [os.path.getsize(f)] and
    [nb.load(f).shape[-1]]. *)
Record nifti_file := {
  getsize : Z;
  shape_last : Z
}.

Record mem_gb_dict := {
  filesize : Q;
  resampled : Q;
  largemem : Q
}.

(** The builtin [max(a, b)]: [b] only when [b > a]. *)
Definition py_max (a b : Q) : Q := if Qle_bool b a then a else b.

(** Python 3 division [/] on numbers is exact rational division here. *)
Definition _create_mem_gb (bold_fname : nifti_file) : Z * mem_gb_dict :=
  let bold_size_gb := (inject_Z (getsize bold_fname) / inject_Z (1024 ^ 3))%Q in
  let bold_tlen := shape_last bold_fname in
  let mem_gb := {|
    filesize := bold_size_gb;
    resampled := (bold_size_gb * 4)%Q;
    largemem :=
      (bold_size_gb * (py_max (inject_Z bold_tlen / 100) 1 + 4))%Q
  |} in
  (bold_tlen, mem_gb).

(** The Python variables that hold the nodes of the main workflow. *)
Inductive stage :=
| inputnode
| outputnode
| bold_reference_wf
| bias_cor_wf
| bold_stc_wf
| boldbuffer
| bold_hmc_wf
| bold_reg_wf
| bold_bold_trans_wf
| bold_confs_wf.

#[global] Instance stage_eq_dec : EqDecision stage.
Proof. solve_decision. Defined.

(** How each node is built: an identity node, or the call that builds a
    sub-workflow with its arguments. *)
Inductive node_decl :=
| Identity (name : string) (fields : list string)
| Init_bold_reference_wf
| Bias_correction_wf (iterative : bool)
| Init_bold_stc_wf (TR : Q)
| Init_bold_hmc_wf (name : string) (mem_gb : Q)
| Init_bold_reg_wf (SyN_reg : bool)
| Init_bold_preproc_trans_wf (mem_gb : Q) (omp_nthreads : Z)
    (use_fieldwarp : bool) (name : string)
| Init_bold_confs_wf (wf : Confs.built).

(** The arguments of [init_func_preproc_wf]. *)
Record config := {
  bold_file : nifti_file;
  omp_nthreads : Z;
  use_syn : bool;
  TR : Q;
  apply_STC : bool;
  iterative_N4 : bool;
  apply_GSR : bool;
  name : string
}.

Record built := Built {
  nodes : stage → option node_decl;
  graph : workflow stage
}.

Definition init_func_preproc_wf (c : config) : result built :=
  let '(bold_tlen, mem_gb) := _create_mem_gb (bold_file c) in
  let workflow := Workflow (name c) [] in
  confs ← Confs.init_bold_confs_wf (apply_GSR c) "bold_confs_wf";
  let node s :=
    match s with
    | inputnode =>
        Some (Identity "inputnode"
          ["bold_file"; "reversed_bold_file"; "anat_preproc"; "anat_mask";
           "anat_labels"; "WM_mask"; "CSF_mask"])
    | outputnode =>
        Some (Identity "outputnode"
          ["bold_file"; "bold_ref"; "skip_vols"; "hmc_xforms";
           "output_warped_bold"; "itk_bold_to_anat"; "itk_anat_to_bold";
           "resampled_bold"; "resampled_ref_bold"; "hmc_movpar_file";
           "cleaned_bold"; "GSR_cleaned_bold"; "EPI_labels"; "confounds_csv"])
    | bold_reference_wf => Some Init_bold_reference_wf
    | bias_cor_wf => Some (Bias_correction_wf (iterative_N4 c))
    | bold_stc_wf =>
        if apply_STC c then Some (Init_bold_stc_wf (TR c)) else None
    | boldbuffer => Some (Identity "boldbuffer" ["bold_file"])
    | bold_hmc_wf => Some (Init_bold_hmc_wf "bold_hmc_wf" (filesize mem_gb))
    | bold_reg_wf => Some (Init_bold_reg_wf (use_syn c))
    | bold_bold_trans_wf =>
        Some (Init_bold_preproc_trans_wf (resampled mem_gb) (omp_nthreads c)
                true "bold_bold_trans_wf")
    | bold_confs_wf => Some (Init_bold_confs_wf confs)
    end in
  workflow ← connect workflow [
    (inputnode, bold_reference_wf, [("bold_file", "inputnode.bold_file")]);
    (bold_reference_wf, bias_cor_wf, [
      ("outputnode.ref_image", "inputnode.ref_EPI")]);
    (inputnode, bias_cor_wf, [
      ("anat_preproc", "inputnode.anat");
      ("anat_mask", "inputnode.anat_mask")]);
    (bold_reference_wf, bold_hmc_wf, [
      ("outputnode.ref_image", "inputnode.ref_image");
      ("outputnode.bold_file", "inputnode.bold_file")]);
    (bold_hmc_wf, outputnode, [
      ("outputnode.xforms", "hmc_xforms");
      ("outputnode.movpar_file", "hmc_movpar_file")]);
    (bold_reference_wf, outputnode, [
      ("outputnode.ref_image", "bold_ref")]);
    (inputnode, outputnode, [("bold_file", "bold_file")]);
    (inputnode, bold_reg_wf, [
      ("anat_preproc", "inputnode.anat_preproc");
      ("anat_mask", "inputnode.anat_mask")]);
    (bold_reg_wf, outputnode, [
      ("outputnode.itk_bold_to_anat", "itk_bold_to_anat");
      ("outputnode.itk_anat_to_bold", "itk_anat_to_bold");
      ("outputnode.output_warped_bold", "output_warped_bold")]);
    (boldbuffer, bold_bold_trans_wf, [("bold_file", "inputnode.bold_file")]);
    (inputnode, bold_bold_trans_wf, [("bold_file", "inputnode.name_source")]);
    (bold_hmc_wf, bold_bold_trans_wf, [
      ("outputnode.xforms", "inputnode.hmc_xforms")]);
    (bold_bold_trans_wf, outputnode, [
      ("outputnode.bold_ref", "resampled_ref_bold");
      ("outputnode.bold", "resampled_bold")]);
    (inputnode, bold_confs_wf, [
      ("anat_mask", "inputnode.t1_mask");
      ("WM_mask", "inputnode.WM_mask");
      ("CSF_mask", "inputnode.CSF_mask");
      ("anat_labels", "inputnode.t1_labels")]);
    (bold_bold_trans_wf, bold_confs_wf, [
      ("outputnode.bold", "inputnode.bold");
      ("outputnode.bold_ref", "inputnode.ref_bold")]);
    (bold_hmc_wf, bold_confs_wf, [
      ("outputnode.movpar_file", "inputnode.movpar_file")]);
    (bold_confs_wf, outputnode, [
      ("outputnode.cleaned_bold", "cleaned_bold");
      ("outputnode.GSR_cleaned_bold", "GSR_cleaned_bold");
      ("outputnode.EPI_labels", "EPI_labels");
      ("outputnode.confounds_csv", "confounds_csv")])
  ];
  workflow ←
    (if apply_STC c then
       connect workflow [
         (bold_reference_wf, bold_stc_wf, [
           ("outputnode.skip_vols", "inputnode.skip_vols");
           ("outputnode.bold_file", "inputnode.bold_file")]);
         (bold_stc_wf, boldbuffer, [("outputnode.stc_file", "bold_file")])
       ]
     else
       connect workflow [
         (bold_reference_wf, boldbuffer, [
           ("outputnode.bold_file", "bold_file")])
       ]);
  workflow ← connect workflow [
    (bias_cor_wf, bold_reg_wf, [
      ("outputnode.corrected_EPI", "inputnode.ref_bold_brain")])
  ];
  workflow ← connect workflow [
    (bold_reg_wf, bold_bold_trans_wf, [
      ("outputnode.itk_bold_to_anat", "inputnode.fieldwarp")])
  ];
  mret (Built node workflow).

(** The confound workflow nested in a built main workflow. *)
Definition confs_of (b : built) : option Confs.built :=
  match nodes b bold_confs_wf with
  | Some (Init_bold_confs_wf wf) => Some wf
  | _ => None
  end.

End Main.

(** ** Vocabulary of the statements *)

Section Vocabulary.
Context `{L : Library}.

(** What one data row becomes: its fields from the third on, converted, then
    zeros up to six columns. *)
Definition movpar_row (row : list string) (r : list val) : Prop :=
  length row ≤ 8 ∧
  ∃ vs, Forall2 (λ s v, py_float s = Some v) (drop 2 row) vs
        ∧ r = vs ++ replicate (6 - length vs) zero.

(** The matrix after the three trace columns are set. *)
Definition with_traces (s1 s2 s3 : matrix) : matrix :=
  zip_with (λ r x, <[2 := x]> r)
    (zip_with (λ r x, <[1 := x]> r)
       (zip_with (λ r x, <[0 := x]> r)
          (np_zeros (length (np_mean <$> s1)) 9) (np_mean <$> s1))
       (np_mean <$> s2))
    (np_mean <$> s3).

Definition mask_calls (inputs : ConfoundRegressionInputSpec) : list event :=
  [Call_apply_mask (bold inputs) (WM_mask inputs);
   Call_apply_mask (bold inputs) (CSF_mask inputs);
   Call_apply_mask (bold inputs) (brain_mask inputs)].

(** The tables written and the cleaning calls made, read off a log. *)
Definition csv_writes (t : list event)
    : list (string * list (list csv_field)) :=
  omap (λ ev, match ev with To_csv p l => Some (p, l) | _ => None end) t.

Definition clean_calls (t : list event) : list (image * clean_args val) :=
  omap (λ ev, match ev with Call_clean_img b a => Some (b, a) | _ => None end)
    t.

(** The statements of [_run_interface] after the table is written. *)
Definition clean_step (inputs : ConfoundRegressionInputSpec)
    (confounds : matrix) : M string :=
  if apply_GSR inputs then clean_bold (bold inputs) confounds
  else
    selected ← lift (getcols confounds (np_r_ [(0, 3); (4, 9)]));
    clean_bold (bold inputs) selected.

End Vocabulary.

(** The edges written under [if apply_GSR:]. *)
Definition GSR_edges : list (edge Confs.stage) :=
  [Edge Confs.inputnode "movpar_file" Confs.GSR_confound_regression
     "movpar_file";
   Edge Confs.skullstrip "skullstrip_brain" Confs.GSR_confound_regression
     "bold";
   Edge Confs.WM_mask_to_EPI "EPI_mask" Confs.GSR_confound_regression
     "WM_mask";
   Edge Confs.CSF_mask_to_EPI "EPI_mask" Confs.GSR_confound_regression
     "CSF_mask";
   Edge Confs.brain_mask_to_EPI "EPI_mask" Confs.GSR_confound_regression
     "brain_mask";
   Edge Confs.GSR_confound_regression "cleaned_bold" Confs.outputnode
     "GSR_cleaned_bold"].

(** The edges written under [if apply_STC:]. *)
Definition STC_edges : list (edge Main.stage) :=
  [Edge Main.bold_reference_wf "outputnode.skip_vols" Main.bold_stc_wf
     "inputnode.skip_vols";
   Edge Main.bold_reference_wf "outputnode.bold_file" Main.bold_stc_wf
     "inputnode.bold_file";
   Edge Main.bold_stc_wf "outputnode.stc_file" Main.boldbuffer "bold_file"].

(** ** [init_bold_hmc_wf] *)

Module Hmc.

Inductive stage :=
| inputnode
| outputnode
| motion_estimation.

#[global] Instance stage_eq_dec : EqDecision stage.
Proof. solve_decision. Defined.

Inductive node_decl :=
| Identity (name : string) (fields : list string)
| EstimateMotion (name : string).

Definition node (s : stage) : node_decl :=
  match s with
  | inputnode => Identity "inputnode" ["bold_file"; "ref_image"]
  | outputnode => Identity "outputnode" ["xforms"; "movpar_file"]
  | motion_estimation => EstimateMotion "ants_MC"
  end.

Record built := Built {
  nodes : stage → node_decl;
  graph : workflow stage
}.

(** The traits of [EstimateMotionInputSpec] and [EstimateMotionOutputSpec],
    and the fields of an identity node. *)
Definition inputs (d : node_decl) : option (list string) :=
  match d with
  | Identity _ fields => Some fields
  | EstimateMotion _ => Some ["in_file"; "ref_file"]
  end.

Definition outputs (d : node_decl) : option (list string) :=
  match d with
  | Identity _ fields => Some fields
  | EstimateMotion _ => Some ["motcorr_params"; "csv_params"]
  end.

Definition init_bold_hmc_wf (name : string) : result built :=
  let workflow := Workflow name [] in
  workflow ← connect workflow [
    (inputnode, motion_estimation, [
      ("ref_image", "ref_file");
      ("bold_file", "in_file")]);
    (motion_estimation, outputnode, [
      ("motcorr_params", "xforms");
      ("csv_params", "movpar_file")])
  ];
  mret (Built node workflow).

End Hmc.

(** ** [init_bold_preproc_trans_wf]

    The resampling arguments are passed through to the transform node
    unread; their types are parameters. *)

Module Trans.

Inductive stage :=
| inputnode
| outputnode
| bold_transform
| merge
| bold_reference_wf.

#[global] Instance stage_eq_dec : EqDecision stage.
Proof. solve_decision. Defined.

Section Build.
Context {A B : Type}.

Inductive node_decl :=
| Identity (name : string) (fields : list string)
| Slice_applyTransforms (name : string) (apply_motcorr : bool)
    (isotropic_resampling : A) (upsampling : B) (data_type : string)
| Merge (name : string) (data_type : string)
| Init_bold_reference_wf.

Record built := Built {
  nodes : stage → node_decl;
  graph : workflow stage
}.

(** The ports of a node whose interface is in the sources: the fields of an
    identity node. *)
Definition ports (d : node_decl) : option (list string) :=
  match d with
  | Identity _ fields => Some fields
  | _ => None
  end.

Definition init_bold_preproc_trans_wf (isotropic_resampling : A)
    (upsampling : B) (data_type : string) (name : string) : result built :=
  let workflow := Workflow name [] in
  let node s :=
    match s with
    | inputnode =>
        Identity "inputnode"
          ["name_source"; "bold_file"; "motcorr_params"; "transforms_list";
           "inverses"; "ref_file"]
    | outputnode => Identity "outputnode" ["bold"; "bold_ref"]
    | bold_transform =>
        Slice_applyTransforms "bold_transform" true isotropic_resampling
          upsampling data_type
    | merge => Merge "merge" data_type
    | bold_reference_wf => Init_bold_reference_wf
    end in
  workflow ← connect workflow [
    (inputnode, merge, [("name_source", "header_source")]);
    (inputnode, bold_transform, [
      ("bold_file", "in_file");
      ("motcorr_params", "motcorr_params");
      ("transforms_list", "transforms");
      ("inverses", "inverses");
      ("ref_file", "ref_file")]);
    (bold_transform, merge, [("out_files", "in_files")]);
    (merge, bold_reference_wf, [("out_file", "inputnode.bold_file")]);
    (merge, outputnode, [("out_file", "bold")]);
    (bold_reference_wf, outputnode, [
      ("outputnode.ref_image", "bold_ref")])
  ];
  mret (Built node workflow).

End Build.

Arguments node_decl : clear implicits.
Arguments built : clear implicits.

End Trans.

(** ** [init_bold_commonspace_trans_wf]

    [os.environ] is a finite map from names to values; a missing name
    raises KeyError. *)

Module Commonspace.

Inductive stage :=
| inputnode
| outputnode
| bold_transform
| merge
| bold_reference_wf
| WM_mask_to_EPI
| CSF_mask_to_EPI
| brain_mask_to_EPI
| propagate_labels.

#[global] Instance stage_eq_dec : EqDecision stage.
Proof. solve_decision. Defined.

Inductive error :=
| KeyError (key : string)
| ConnectError (e : exn).

Definition build := sum error.

#[global] Instance build_ret : MRet build := λ A, inr.
#[global] Instance build_bind : MBind build :=
  λ A B f m, match m with inl e => inl e | inr a => f a end.

(** [os.environ[key]] *)
Definition environ (env : gmap string string) (key : string) : build string :=
  match env !! key with
  | Some v => inr v
  | None => inl (KeyError key)
  end.

Definition connected {A} (r : result A) : build A :=
  match r with
  | inl e => inl (ConnectError e)
  | inr a => inr a
  end.

Section Build.
Context {A B : Type}.

Inductive node_decl :=
| Identity (name : string) (fields : list string)
| Slice_applyTransforms (name : string) (ref_file : string)
    (apply_motcorr : bool) (isotropic_resampling : A) (upsampling : B)
    (data_type : string)
| Merge (name : string) (data_type : string)
| Init_bold_reference_wf
| Mask_EPI (name : string) (name_spec : string) (mask : string).

Record built := Built {
  nodes : stage → node_decl;
  graph : workflow stage
}.

(** The ports of a node whose interface is in the sources: the fields of an
    identity node. *)
Definition ports (d : node_decl) : option (list string) :=
  match d with
  | Identity _ fields => Some fields
  | _ => None
  end.

Definition init_bold_commonspace_trans_wf (env : gmap string string)
    (isotropic_resampling : A) (upsampling : B) (data_type : string)
    (name : string) : build built :=
  let workflow := Workflow name [] in
  template_anat ← environ env "template_anat";
  WM_mask ← environ env "WM_mask";
  CSF_mask ← environ env "CSF_mask";
  template_mask ← environ env "template_mask";
  atlas_labels ← environ env "atlas_labels";
  let node s :=
    match s with
    | inputnode =>
        Identity "inputnode"
          ["name_source"; "bold_file"; "transforms_list"; "inverses"]
    | outputnode =>
        Identity "outputnode"
          ["bold"; "bold_ref"; "brain_mask"; "WM_mask"; "CSF_mask"; "labels"]
    | bold_transform =>
        Slice_applyTransforms "bold_transform" template_anat false
          isotropic_resampling upsampling data_type
    | merge => Merge "merge" data_type
    | bold_reference_wf => Init_bold_reference_wf
    | WM_mask_to_EPI => Mask_EPI "WM_mask_EPI" "commonspace_WM_mask" WM_mask
    | CSF_mask_to_EPI =>
        Mask_EPI "CSF_mask_EPI" "commonspace_CSF_mask" CSF_mask
    | brain_mask_to_EPI =>
        Mask_EPI "Brain_mask_EPI" "commonspace_brain_mask" template_mask
    | propagate_labels =>
        Mask_EPI "prop_labels_EPI" "commonspace_anat_labels" atlas_labels
    end in
  workflow ← connected (connect workflow [
    (inputnode, merge, [("name_source", "header_source")]);
    (inputnode, bold_transform, [
      ("bold_file", "in_file");
      ("transforms_list", "transforms");
      ("inverses", "inverses")]);
    (bold_transform, merge, [("out_files", "in_files")]);
    (merge, bold_reference_wf, [("out_file", "inputnode.bold_file")]);
    (merge, outputnode, [("out_file", "bold")]);
    (bold_reference_wf, WM_mask_to_EPI, [
      ("outputnode.ref_image", "ref_EPI")]);
    (WM_mask_to_EPI, outputnode, [
      ("EPI_mask", "WM_mask")]);
    (bold_reference_wf, CSF_mask_to_EPI, [
      ("outputnode.ref_image", "ref_EPI")]);
    (CSF_mask_to_EPI, outputnode, [
      ("EPI_mask", "CSF_mask")]);
    (bold_reference_wf, brain_mask_to_EPI, [
      ("outputnode.ref_image", "ref_EPI")]);
    (brain_mask_to_EPI, outputnode, [
      ("EPI_mask", "brain_mask")]);
    (bold_reference_wf, propagate_labels, [
      ("outputnode.ref_image", "ref_EPI")]);
    (propagate_labels, outputnode, [
      ("EPI_mask", "labels")]);
    (bold_reference_wf, outputnode, [
      ("outputnode.ref_image", "bold_ref")])
  ]);
  mret (Built node workflow).

End Build.

Arguments node_decl : clear implicits.
Arguments built : clear implicits.

(** The names read from the environment, in the order they are read. *)
Definition environ_keys : list string :=
  ["template_anat"; "WM_mask"; "CSF_mask"; "template_mask"; "atlas_labels"].

End Commonspace.

(** ** Vocabulary for wiring *)

(** A port is declared by a node whose ports are [Some l] when it is in [l];
    [None] stands for an interface that is not in the sources. *)
Definition declared (ports : option (list string)) (p : string) : Prop :=
  match ports with
  | Some l => p ∈ l
  | None => True
  end.

#[global] Instance declared_dec ports p : Decision (declared ports p).
Proof. destruct ports; simpl; apply _. Defined.

(** The traits of the interfaces defined in [confounds.py], and the fields
    of an identity node; [Skullstrip] is imported from a module that is not
    in the sources. *)
Definition interface_inputs (i : interface) : option (list string) :=
  match i with
  | IdentityInterface fields => Some fields
  | MaskEPI _ => Some ["mask"; "ref_EPI"; "EPI_to_anat_trans"; "use_transforms"]
  | Skullstrip => None
  | ConfoundRegression _ _ =>
      Some ["bold"; "movpar_file"; "brain_mask"; "WM_mask"; "CSF_mask";
            "apply_GSR"; "motioncorr_24params"]
  end.

Definition interface_outputs (i : interface) : option (list string) :=
  match i with
  | IdentityInterface fields => Some fields
  | MaskEPI _ => Some ["EPI_mask"]
  | Skullstrip => None
  | ConfoundRegression _ _ => Some ["cleaned_bold"; "confounds_csv"]
  end.

(** The ports of the stages of a built confound workflow; a variable that
    holds no node has none. *)
Definition confs_inputs (b : Confs.built) (s : Confs.stage)
    : option (list string) :=
  match Confs.nodes b s with
  | Some n => interface_inputs (node_interface n)
  | None => Some []
  end.

Definition confs_outputs (b : Confs.built) (s : Confs.stage)
    : option (list string) :=
  match Confs.nodes b s with
  | Some n => interface_outputs (node_interface n)
  | None => Some []
  end.

(** The ports [node.field] that a confound workflow shows to its parent
    through an identity node of its graph. *)
Definition subworkflow_ports (wf : Confs.built) (s : Confs.stage)
    : list string :=
  match Confs.nodes wf s with
  | Some (MkNode (IdentityInterface fields) n) =>
      if decide (s ∈ wf_nodes (Confs.graph wf))
      then (λ f, (n ++ "." ++ f)%string) <$> fields
      else []
  | _ => []
  end.

(** The ports of the stages of a built main workflow: the fields of its
    identity nodes and the ports of the nested confound workflow; the other
    sub-workflows are built by functions that are not in the sources. *)
Definition main_inputs (b : Main.built) (s : Main.stage)
    : option (list string) :=
  match Main.nodes b s with
  | Some (Main.Identity _ fields) => Some fields
  | Some (Main.Init_bold_confs_wf wf) =>
      Some (subworkflow_ports wf Confs.inputnode)
  | Some _ => None
  | None => Some []
  end.

Definition main_outputs (b : Main.built) (s : Main.stage)
    : option (list string) :=
  match Main.nodes b s with
  | Some (Main.Identity _ fields) => Some fields
  | Some (Main.Init_bold_confs_wf wf) =>
      Some (subworkflow_ports wf Confs.outputnode)
  | Some _ => None
  | None => Some []
  end.

Section Wiring.
Context {stage : Type} `{EqDecision stage}.

(** No input port is bound twice. *)
Definition single_bound (g : list (edge stage)) : Prop :=
  NoDup ((λ e, (dst e, dst_port e)) <$> g).

(** One stage feeds another; a graph is acyclic when no stage reaches
    itself along such steps. *)
Definition feeds (g : list (edge stage)) (a b : stage) : Prop :=
  Exists (λ e, src e = a ∧ dst e = b) g.

Definition acyclic (g : list (edge stage)) : Prop :=
  ∀ s, ¬ tc (feeds g) s s.

Definition ranked (rank : stage → nat) (g : list (edge stage)) : Prop :=
  Forall (λ e, rank (src e) < rank (dst e)) g.

(** An output port is read, an input port is written, by some edge. *)
Definition consumed (g : list (edge stage)) (s : stage) (p : string) : Prop :=
  Exists (λ e, src e = s ∧ src_port e = p) g.

Definition produced (g : list (edge stage)) (s : stage) (p : string) : Prop :=
  Exists (λ e, dst e = s ∧ dst_port e = p) g.

(** Every edge leaves a declared output and enters a declared input. *)
Definition ports_exist (inputs outputs : stage → option (list string))
    (g : list (edge stage)) : Prop :=
  Forall (λ e, declared (outputs (src e)) (src_port e)
               ∧ declared (inputs (dst e)) (dst_port e)) g.

End Wiring.

(** A topological rank of the stages of the main workflow. *)
Definition main_rank (s : Main.stage) : nat :=
  match s with
  | Main.inputnode => 0
  | Main.bold_reference_wf => 1
  | Main.bias_cor_wf | Main.bold_hmc_wf | Main.bold_stc_wf => 2
  | Main.boldbuffer | Main.bold_reg_wf => 3
  | Main.bold_bold_trans_wf => 4
  | Main.bold_confs_wf => 5
  | Main.outputnode => 6
  end.

(** A configuration with another repetition time, or another BOLD file. *)
Definition set_TR (tr : Q) (c : Main.config) : Main.config :=
  {| Main.bold_file := Main.bold_file c;
     Main.omp_nthreads := Main.omp_nthreads c;
     Main.use_syn := Main.use_syn c;
     Main.TR := tr;
     Main.apply_STC := Main.apply_STC c;
     Main.iterative_N4 := Main.iterative_N4 c;
     Main.apply_GSR := Main.apply_GSR c;
     Main.name := Main.name c |}.

Definition set_bold_file (f : Main.nifti_file) (c : Main.config)
    : Main.config :=
  {| Main.bold_file := f;
     Main.omp_nthreads := Main.omp_nthreads c;
     Main.use_syn := Main.use_syn c;
     Main.TR := Main.TR c;
     Main.apply_STC := Main.apply_STC c;
     Main.iterative_N4 := Main.iterative_N4 c;
     Main.apply_GSR := Main.apply_GSR c;
     Main.name := Main.name c |}.

(** The matrix handed to the cleaning for a given flag. *)
Definition regressed `{L : Library} (g : bool) (conf : matrix) : matrix :=
  if g then conf else (λ r, take 3 r ++ drop 4 r) <$> conf.

(** ** A reference library for closed examples

    Cells are rationals or NaN ([None]); [float] reads unsigned decimal
    integers and [nan]; a series is a list of volumes, a volume the list of
    its voxel values; a mask selects voxels.  Masking rejects a mask of
    another size and an empty mask; cleaning and smoothing are symbolic. *)

Module Ref.

Inductive img :=
| Series (volumes : list (list Q))
| Mask (voxels : list bool)
| Cleaned (source : img) (a : clean_args (option Q))
| Smoothed (source : img) (fwhm : Q).

Fixpoint digits (s : string) (acc : N) : option N :=
  match s with
  | EmptyString => Some acc
  | String c s' =>
      let n := N_of_ascii c in
      if bool_decide (48 ≤ n ∧ n ≤ 57)%N then digits s' (10 * acc + (n - 48))%N
      else None
  end.

Definition float (s : string) : option (option Q) :=
  if decide (s = "nan") then Some None
  else if decide (s = "") then None
  else (λ n, Some (inject_Z (Z.of_N n))) <$> digits s 0.

Definition add (x y : option Q) : option Q :=
  a ← x; b ← y; Some (a + b)%Q.

Definition mean (row : list (option Q)) : option Q :=
  match row with
  | [] => None
  | _ =>
      total ← foldr add (Some 0%Q) row;
      Some (total / inject_Z (Z.of_nat (length row)))%Q
  end.

Definition select (mask : list bool) (volume : list Q) : list (option Q) :=
  (λ p, Some p.2) <$> filter (λ p : bool * Q, p.1 = true) (zip mask volume).

Definition masked (bold mask : img) : result (list (list (option Q))) :=
  match bold, mask with
  | Series volumes, Mask voxels =>
      if decide (Forall (λ v, length v = length voxels) volumes
                 ∧ true ∈ voxels)
      then inr (select voxels <$> volumes)
      else inl ValueError
  | _, _ => inl ValueError
  end.

Definition volumes_of (bold : img) : nat :=
  match bold with
  | Series volumes => length volumes
  | _ => 0
  end.

Lemma masked_rows b m s : masked b m = inr s → length s = volumes_of b.
Proof.
  destruct b, m; simpl; try discriminate.
  case_decide; [|discriminate].
  intros [= <-]. by rewrite length_fmap.
Qed.

#[global] Instance library : Library := {|
  val := option Q;
  zero := Some 0%Q;
  py_float := float;
  np_mean := mean;
  image := img;
  n_volumes := volumes_of;
  apply_mask := masked;
  apply_mask_rows := masked_rows;
  clean_img b a := inr (Cleaned b a);
  smooth_img b fwhm := inr (Smoothed b fwhm)
|}.

(** Two volumes of three voxels, one-voxel white-matter and CSF masks, a
    whole-brain mask, and a motion table with [rows] after its header. *)
Definition motion_table (rows : list (list string)) : list (list string) :=
  ["Metric"; "Hint"; "Tx"; "Ty"; "Tz"; "Rx"; "Ry"; "Rz"] :: rows.

Definition sample (rows : list (list string)) (mask : list bool)
    : ConfoundRegressionInputSpec :=
  {| bold := Series [[1; 2; 3]; [4; 5; 9]]%Q;
     movpar_file := motion_table rows;
     brain_mask := Mask [true; true; true];
     WM_mask := Mask mask;
     CSF_mask := Mask [false; true; false];
     apply_GSR := false;
     motioncorr_24params := false |}.

Definition two_rows : list (list string) :=
  [["0"; "1"; "11"; "12"; "13"; "14"; "15"; "16"];
   ["1"; "1"; "21"; "22"; "23"; "24"; "25"; "26"]].

Definition one_row : list (list string) :=
  [["0"; "1"; "11"; "12"; "13"; "14"; "15"; "16"]].

Definition wm_voxel : list bool := [true; false; false].

(** A 2 GiB series of 100 volumes, preprocessed with a repetition time of
    2 and both optional branches on. *)
Definition two_gib : Main.nifti_file :=
  {| Main.getsize := 2 ^ 31; Main.shape_last := 100 |}.

Definition config : Main.config :=
  {| Main.bold_file := two_gib;
     Main.omp_nthreads := 1;
     Main.use_syn := true;
     Main.TR := 2;
     Main.apply_STC := true;
     Main.iterative_N4 := true;
     Main.apply_GSR := true;
     Main.name := "main_wf" |}.

End Ref.

(** The reference library with a cleaning that raises, and further sample
    inputs. *)
Module Faulty.

Definition library : Library := {|
  val := option Q;
  zero := Some 0%Q;
  py_float := Ref.float;
  np_mean := Ref.mean;
  image := Ref.img;
  n_volumes := Ref.volumes_of;
  apply_mask := Ref.masked;
  apply_mask_rows := Ref.masked_rows;
  clean_img _ _ := inl LibraryError;
  smooth_img b fwhm := inr (Ref.Smoothed b fwhm)
|}.

Definition sample : @ConfoundRegressionInputSpec library :=
  @Build_ConfoundRegressionInputSpec library
    (Ref.Series [[1; 2; 3]; [4; 5; 9]]%Q)
    (Ref.motion_table Ref.two_rows)
    (Ref.Mask [true; true; true])
    (Ref.Mask Ref.wm_voxel)
    (Ref.Mask [false; true; false])
    true false.

End Faulty.

Module Samples.

(** The table of [Ref.two_rows] under another header and other leading
    fields. *)
Definition relabelled : list (list string) :=
  [["volume"; "metric"; "a"; "b"; "c"; "d"; "e"; "f"];
   ["x"; "y"; "11"; "12"; "13"; "14"; "15"; "16"];
   ["z"; "w"; "21"; "22"; "23"; "24"; "25"; "26"]].

Definition environment : gmap string string :=
  list_to_map
    [("template_anat", "/t/anat.nii.gz"); ("WM_mask", "/t/wm.nii.gz");
     ("CSF_mask", "/t/csf.nii.gz"); ("template_mask", "/t/mask.nii.gz");
     ("atlas_labels", "/t/labels.nii.gz")].




Definition small : Main.nifti_file :=
  {| Main.getsize := 2 ^ 30; Main.shape_last := 50 |}.

End Samples.

(** * Properties *)

(** ** The motion-parameter parser *)

Section Movpar.
Context `{L : Library}.

Lemma fill_fields_spec row j n : ∀ i movpar r m',
  movpar !! j = Some r → length r = 6 → 2 ≤ i ≤ 8 → n = length row - i →
  fill_fields row (seq i n) j movpar = inr m' ↔
    length row ≤ 8 ∧
    ∃ vs, Forall2 (λ s v, py_float s = Some v) (drop i row) vs
          ∧ m' = <[j := take (i - 2) r ++ vs ++ drop (i - 2 + n) r]> movpar.
Proof.
  induction n as [|n IH]; intros i movpar r m' Hj Hr Hi Hn; simpl.
  - assert (drop i row = []) as -> by (apply drop_ge; lia).
    split.
    + intros [= <-]. split; [lia|]. exists []. split; [constructor|].
      rewrite app_nil_l, Nat.add_0_r, take_drop. by rewrite list_insert_id.
    + intros (_ & vs & Hvs & ->). apply Forall2_nil_inv_l in Hvs as ->.
      rewrite app_nil_l, Nat.add_0_r, take_drop. by rewrite list_insert_id.
  - destruct (lookup_lt_is_Some_2 row i) as [s Hs]; [lia|].
    rewrite Hs. rewrite (drop_S _ _ _ Hs).
    destruct (py_float s) as [v|] eqn:Hv.
    2:{ split; [done|]. intros (_ & vs & Hvs & _).
        apply Forall2_cons_inv_l in Hvs as (? & ? & ? & _). congruence. }
    unfold setitem2. rewrite Hj. case_decide as Hk; simpl.
    2:{ split; [done|]. intros [? _]. lia. }
    assert (j < length movpar) by (by eapply lookup_lt_Some).
    rewrite (IH (S i) _ (<[i - 2 := v]> r));
      [|by apply list_lookup_insert_eq|by rewrite length_insert|lia|lia].
    assert (∀ vs : list val,
      <[j := take (S i - 2) (<[i - 2 := v]> r) ++ vs
               ++ drop (S i - 2 + n) (<[i - 2 := v]> r)]>
        (<[j := <[i - 2 := v]> r]> movpar)
      = <[j := take (i - 2) r ++ (v :: vs) ++ drop (i - 2 + S n) r]> movpar)
      as Hins.
    { intros vs. rewrite list_insert_insert_eq.
      replace (S i - 2) with (S (i - 2)) by lia.
      rewrite (take_S_r _ _ v) by (apply list_lookup_insert_eq; lia).
      rewrite take_insert_ge by lia.
      rewrite drop_insert_lt by lia.
      replace (S (i - 2) + n) with (i - 2 + S n) by lia.
      by rewrite <-app_assoc. }
    split.
    + intros (? & vs & Hvs & ->). split; [done|]. exists (v :: vs).
      split; [by constructor|]. apply Hins.
    + intros (? & vs & Hvs & ->). split; [done|].
      apply Forall2_cons_inv_l in Hvs as (v' & vs' & Hv' & Hvs' & ->).
      assert (v' = v) as -> by congruence.
      exists vs'. split; [done|]. symmetry. apply Hins.
Qed.

Lemma fill_fields_row row j movpar m' :
  movpar !! j = Some (replicate 6 zero) →
  fill_fields row (range 2 (length row)) j movpar = inr m' ↔
    ∃ r, movpar_row row r ∧ m' = <[j := r]> movpar.
Proof.
  intros Hj. unfold range.
  rewrite (fill_fields_spec row j _ 2 movpar (replicate 6 zero));
    [|done|by rewrite length_replicate|lia|done].
  assert (∀ vs : list val,
    Forall2 (λ s v, py_float s = Some v) (drop 2 row) vs →
    take (2 - 2) (replicate 6 zero) ++ vs
      ++ drop (2 - 2 + (length row - 2)) (replicate 6 zero)
    = vs ++ replicate (6 - length vs) zero) as Hrow.
  { intros vs Hvs. apply Forall2_length in Hvs. rewrite length_drop in Hvs.
    rewrite Nat.sub_diag, take_0, drop_replicate, Hvs. done. }
  unfold movpar_row. split.
  - intros (? & vs & Hvs & ->). eexists. split; [|done].
    split; [done|]. exists vs. split; [done|]. by apply Hrow.
  - intros (r & (? & vs & Hvs & ->) & ->). split; [done|].
    exists vs. split; [done|]. by rewrite Hrow.
Qed.

Lemma fill_rows_spec rows : ∀ done m',
  fill_rows rows (length done)
    (done ++ replicate (length rows) (replicate 6 zero)) = inr m' ↔
    ∃ rs, Forall2 movpar_row rows rs ∧ m' = done ++ rs.
Proof.
  set (z6 := replicate 6 zero).
  induction rows as [|row rows IH]; intros done m'; simpl.
  - split.
    + intros [= <-]. exists []. split; [constructor|]. by rewrite !app_nil_r.
    + intros (rs & Hrs & ->). apply Forall2_nil_inv_l in Hrs as ->.
      by rewrite !app_nil_r.
  - assert ((done ++ z6 :: replicate (length rows) z6) !! length done
            = Some z6) as Hj by (by rewrite list_lookup_middle).
    pose proof (fill_fields_row row (length done)
                  (done ++ z6 :: replicate (length rows) z6)) as Hrow.
    destruct (fill_fields row _ _ _) as [e|m1] eqn:E; simpl.
    + split; [done|]. intros (rs & Hrs & ->).
      apply Forall2_cons_inv_l in Hrs as (r & rs' & Hr & _ & ->).
      assert (inl e = inr (<[length done := r]>
                (done ++ z6 :: replicate (length rows) z6))) as [=].
      apply Hrow; [done|by exists r].
    + destruct (proj1 (Hrow m1 Hj) eq_refl) as (r & Hr & ->).
      rewrite insert_app_r_alt, Nat.sub_diag by lia. simpl.
      rewrite (cons_middle r), app_assoc.
      replace (length done + 1) with (length (done ++ [r]))
        by (rewrite length_app; simpl; lia).
      rewrite IH. split.
      * intros (rs & Hrs & ->). exists (r :: rs).
        split; [by constructor|]. by rewrite <-app_assoc.
      * intros (rs & Hrs & Heq).
        apply Forall2_cons_inv_l in Hrs as (r' & rs' & Hr' & Hrs' & ->).
        assert (r' = r) as ->.
        { destruct Hr as (_ & vs & Hvs & ->), Hr' as (_ & vs' & Hvs' & ->).
          assert (vs' = vs) as ->; [|done].
          clear -Hvs Hvs'. revert vs' Hvs'.
          induction Hvs; intros vs' Hvs'; inversion Hvs'; subst; [done|].
          f_equal; [congruence|auto]. }
        exists rs'. split; [done|]. by rewrite <-app_assoc.
Qed.

(** The parser returns exactly when the file has a first row and every
    other row converts; the result then has one row per data row. *)
Lemma extract_rigid_movpar_inr temp movpar :
  extract_rigid_movpar temp = inr movpar ↔
    temp ≠ [] ∧ Forall2 movpar_row (tail temp) movpar.
Proof.
  unfold extract_rigid_movpar. case_decide as Hlen.
  - destruct temp; [|done]. split; [done|]. by intros [? _].
  - destruct temp as [|hd data]; [done|]. simpl.
    rewrite Nat.sub_0_r.
    rewrite (fill_rows_spec data [] movpar). simpl. split.
    + intros (rs & Hrs & ->). done.
    + intros [_ Hrs]. by exists movpar.
Qed.

Lemma movpar_row_exists row :
  length row ≤ 8 → Forall (λ s, is_Some (py_float s)) (drop 2 row) →
  ∃ r, movpar_row row r.
Proof.
  intros Hlen Hconv.
  assert (∃ vs, Forall2 (λ s v, py_float s = Some v) (drop 2 row) vs)
    as [vs Hvs].
  { induction Hconv as [|s l [v Hv] _ [vs IH]].
    - exists []. constructor.
    - exists (v :: vs). by constructor. }
  exists (vs ++ replicate (6 - length vs) zero). split; [done|]. by exists vs.
Qed.

Lemma movpar_row_length row r : movpar_row row r → length r = 6.
Proof.
  intros (Hlen & vs & Hvs & ->). apply Forall2_length in Hvs.
  rewrite length_drop in Hvs.
  rewrite length_app, length_replicate. lia.
Qed.

Lemma movpar_row_lookup row r k :
  movpar_row row r → k < 6 →
  r !! k = if decide (k + 2 < length row) then row !! (k + 2) ≫= py_float
           else Some zero.
Proof.
  intros (Hlen & vs & Hvs & ->) Hk.
  pose proof (Forall2_length _ _ _ Hvs) as Hl. rewrite length_drop in Hl.
  case_decide as Hin.
  - rewrite lookup_app_l by lia.
    destruct (lookup_lt_is_Some_2 vs k) as [v Hv]; [lia|].
    destruct (Forall2_lookup_r _ _ _ _ _ Hvs Hv) as (s & Hs & Hsv).
    rewrite lookup_drop in Hs.
    replace (k + 2) with (2 + k) by lia. rewrite Hs. simpl. congruence.
  - rewrite lookup_app_r by lia. apply lookup_replicate_2. lia.
Qed.

(** The parser raises ValueError only for an empty file or a field that does
    not convert, and otherwise IndexError. *)
Lemma fill_fields_error row idx j : ∀ movpar e,
  fill_fields row idx j movpar = inl e →
  e = IndexError
  ∨ e = ValueError ∧ ∃ i s, i ∈ idx ∧ row !! i = Some s ∧ py_float s = None.
Proof.
  induction idx as [|i idx IH]; intros movpar e; simpl; [done|].
  destruct (row !! i) as [s|] eqn:Hs; [|intros [= <-]; by left].
  destruct (py_float s) as [v|] eqn:Hv.
  - unfold setitem2. destruct (movpar !! j); simpl; [|intros [= <-]; by left].
    case_decide; simpl; [|intros [= <-]; by left].
    intros He. apply IH in He as [->|(-> & i' & s' & ? & ? & ?)]; [by left|].
    right. split; [done|]. exists i', s'. split; [by right|done].
  - intros [= <-]. right. split; [done|]. exists i, s. split; [by left|done].
Qed.

Lemma fill_rows_error rows : ∀ j movpar e,
  fill_rows rows j movpar = inl e →
  e = IndexError
  ∨ e = ValueError
    ∧ Exists (λ row, Exists (λ s, py_float s = None) (drop 2 row)) rows.
Proof.
  induction rows as [|row rows IH]; intros j movpar e; simpl; [done|].
  destruct (fill_fields row _ j movpar) as [e'|m1] eqn:E; simpl.
  - intros [= <-].
    apply fill_fields_error in E as [->|(-> & i & s & Hi & Hs & Hv)];
      [by left|].
    right. split; [done|]. left.
    apply Exists_exists. exists s. split; [|done].
    apply list_elem_of_lookup. exists (i - 2). rewrite lookup_drop.
    unfold range in Hi. apply elem_of_seq in Hi.
    replace (2 + (i - 2)) with i by lia. done.
  - intros He. apply IH in He as [->|[-> ?]]; [by left|].
    right. split; [done|]. by right.
Qed.

Lemma extract_rigid_movpar_width temp movpar :
  extract_rigid_movpar temp = inr movpar → Forall (λ r, length r = 6) movpar.
Proof.
  intros [_ Hm]%extract_rigid_movpar_inr.
  apply Forall_forall. intros r Hr.
  apply list_elem_of_lookup in Hr as [j Hj].
  destruct (Forall2_lookup_r _ _ _ _ _ Hm Hj) as (row & _ & Hrow).
  by eapply movpar_row_length.
Qed.

End Movpar.

(** C9: the motion-parameter parser drops the first row and the first two
    fields of every other row, and returns one 6-column row per data row.
    It returns whenever the file has a first row, no data row has more than
    8 fields and every kept field converts; when it returns, no data row has
    more than 8 fields, and the columns a short row does not fill hold zero.
    A data row of more than 8 fields makes it raise, with IndexError (the
    write to column 6 and beyond) when every kept field converts. *)
Theorem extract_rigid_movpar_rows_and_columns `{L : Library}
    (temp : list (list string)) :
  (temp ≠ [] →
   Forall (λ row, length row ≤ 8
                  ∧ Forall (λ s, is_Some (py_float s)) (drop 2 row))
     (tail temp) →
   ∃ movpar, extract_rigid_movpar temp = inr movpar)
  ∧ (∀ movpar, extract_rigid_movpar temp = inr movpar →
       length movpar = length temp - 1
       ∧ Forall (λ r, length r = 6) movpar
       ∧ ∀ j row, tail temp !! j = Some row →
           length row ≤ 8
           ∧ ∃ r, movpar !! j = Some r
                  ∧ ∀ k, k < 6 →
                      r !! k = if decide (k + 2 < length row)
                               then row !! (k + 2) ≫= py_float
                               else Some zero)
  ∧ (Exists (λ row, 8 < length row) (tail temp) →
     ∃ e, extract_rigid_movpar temp = inl e
          ∧ (Forall (λ row, Forall (λ s, is_Some (py_float s)) (drop 2 row))
               (tail temp) → e = IndexError)).
Proof.
  split; [|split].
  - intros Hne Hrows.
    assert (∃ movpar, Forall2 movpar_row (tail temp) movpar) as [movpar Hm].
    { induction Hrows as [|row rows [Hlen Hconv] _ [rs IH]].
      - exists []. constructor.
      - destruct (movpar_row_exists row Hlen Hconv) as [r Hr].
        exists (r :: rs). by constructor. }
    exists movpar. by apply extract_rigid_movpar_inr.
  - intros movpar [Hne Hm]%extract_rigid_movpar_inr.
    split; [|split].
    + apply Forall2_length in Hm. rewrite <-Hm.
      destruct temp; simpl; lia.
    + apply (extract_rigid_movpar_width temp).
      by apply extract_rigid_movpar_inr.
    + intros j row Hj.
      destruct (Forall2_lookup_l _ _ _ _ _ Hm Hj) as (r & Hr & Hrow).
      split; [apply Hrow|]. exists r. split; [done|].
      intros k Hk. by apply movpar_row_lookup.
  - intros Hlong.
    destruct (extract_rigid_movpar temp) as [e|movpar] eqn:E.
    + exists e. split; [done|]. intros Hconv.
      unfold extract_rigid_movpar in E. case_decide as Hlen.
      { destruct temp; [|done]. by apply Exists_nil in Hlong. }
      apply fill_rows_error in E as [->|[_ Hbad]]; [done|].
      exfalso. apply Exists_exists in Hbad as (row & Hrow & Hs).
      rewrite Forall_forall in Hconv. specialize (Hconv row Hrow).
      apply Exists_exists in Hs as (s & Hs & Hnone).
      rewrite Forall_forall in Hconv. destruct (Hconv s Hs) as [v Hv].
      congruence.
    + exfalso. apply extract_rigid_movpar_inr in E as [_ Hm].
      apply Exists_exists in Hlong as (row & Hrow & Hlen).
      apply list_elem_of_lookup in Hrow as [j Hj].
      destruct (Forall2_lookup_l _ _ _ _ _ Hm Hj) as (r & _ & Hle & _).
      lia.
Qed.

(** ** The confound regression engine *)

Section EngineProofs.
Context `{L : Library}.

Lemma setcol_same (a : matrix) k (v : list val) :
  length v = length a → setcol a k v = inr (zip_with (λ r x, <[k := x]> r) a v).
Proof. intros H. unfold setcol. by rewrite decide_True. Qed.

Lemma assemble_confounds_eq inputs :
  assemble_confounds inputs =
    match apply_mask (bold inputs) (WM_mask inputs) with
    | inl e => (take 1 (mask_calls inputs), inl e)
    | inr s1 =>
        match apply_mask (bold inputs) (CSF_mask inputs) with
        | inl e => (take 2 (mask_calls inputs), inl e)
        | inr s2 =>
            match apply_mask (bold inputs) (brain_mask inputs) with
            | inl e => (mask_calls inputs, inl e)
            | inr s3 =>
                (mask_calls inputs,
                 movpar ← extract_rigid_movpar (movpar_file inputs);
                 setblock (with_traces s1 s2 s3) 3 9 movpar)
            end
        end
    end.
Proof.
  unfold assemble_confounds, extract_mask_trace, mask_calls.
  destruct (apply_mask _ (WM_mask inputs)) as [e|s1] eqn:E1; [done|].
  pose proof (apply_mask_rows _ _ _ E1) as H1.
  cbn -[setcol np_zeros setblock extract_rigid_movpar].
  rewrite setcol_same
    by (unfold np_zeros; by rewrite length_replicate).
  cbn -[setcol np_zeros setblock extract_rigid_movpar].
  destruct (apply_mask _ (CSF_mask inputs)) as [e|s2] eqn:E2; [done|].
  pose proof (apply_mask_rows _ _ _ E2) as H2.
  cbn -[setcol np_zeros setblock extract_rigid_movpar].
  rewrite setcol_same
    by (unfold np_zeros;
        rewrite length_zip_with, length_replicate, !length_fmap; lia).
  cbn -[setcol np_zeros setblock extract_rigid_movpar].
  destruct (apply_mask _ (brain_mask inputs)) as [e|s3] eqn:E3; [done|].
  pose proof (apply_mask_rows _ _ _ E3) as H3.
  cbn -[setcol np_zeros setblock extract_rigid_movpar].
  rewrite setcol_same
    by (unfold np_zeros;
        rewrite !length_zip_with, length_replicate, !length_fmap; lia).
  cbn -[setcol np_zeros setblock extract_rigid_movpar].
  unfold with_traces.
  destruct (extract_rigid_movpar _) as [e|movpar]; [done|].
  cbn -[setcol np_zeros setblock extract_rigid_movpar].
  by destruct (setblock _ _ _ _).
Qed.

Lemma with_traces_length (s1 s2 s3 : matrix) n :
  length s1 = n → length s2 = n → length s3 = n →
  length (with_traces s1 s2 s3) = n.
Proof.
  intros H1 H2 H3. unfold with_traces, np_zeros.
  rewrite !length_zip_with, length_replicate, !length_fmap. lia.
Qed.

Lemma with_traces_lookup (s1 s2 s3 : matrix) t v1 v2 v3 :
  s1 !! t = Some v1 → s2 !! t = Some v2 → s3 !! t = Some v3 →
  with_traces s1 s2 s3 !! t
  = Some [np_mean v1; np_mean v2; np_mean v3;
          zero; zero; zero; zero; zero; zero].
Proof.
  intros H1 H2 H3. unfold with_traces, np_zeros.
  rewrite !lookup_zip_with, !list_lookup_fmap, H1, H2, H3.
  rewrite lookup_replicate_2
    by (rewrite length_fmap; by eapply lookup_lt_Some).
  done.
Qed.

(** The assembled matrix when the motion table has one row per volume. *)
Lemma assemble_confounds_rows inputs (s1 s2 s3 movpar : matrix) :
  apply_mask (bold inputs) (WM_mask inputs) = inr s1 →
  apply_mask (bold inputs) (CSF_mask inputs) = inr s2 →
  apply_mask (bold inputs) (brain_mask inputs) = inr s3 →
  extract_rigid_movpar (movpar_file inputs) = inr movpar →
  length movpar = n_volumes (bold inputs) →
  ∃ conf,
    assemble_confounds inputs = (mask_calls inputs, inr conf)
    ∧ length conf = n_volumes (bold inputs)
    ∧ Forall (λ r, length r = 9) conf
    ∧ ∀ t, t < n_volumes (bold inputs) →
        ∃ v1 v2 v3 mv,
          s1 !! t = Some v1 ∧ s2 !! t = Some v2 ∧ s3 !! t = Some v3
          ∧ movpar !! t = Some mv
          ∧ conf !! t = Some (np_mean v1 :: np_mean v2 :: np_mean v3 :: mv).
Proof.
  intros E1 E2 E3 Em Hlen.
  pose proof (apply_mask_rows _ _ _ E1) as H1.
  pose proof (apply_mask_rows _ _ _ E2) as H2.
  pose proof (apply_mask_rows _ _ _ E3) as H3.
  pose proof (with_traces_length s1 s2 s3 _ H1 H2 H3) as Hw.
  pose proof (extract_rigid_movpar_width _ _ Em) as H6.
  rewrite assemble_confounds_eq, E1, E2, E3, Em.
  cbn -[setblock with_traces]. unfold setblock.
  rewrite decide_True by lia.
  eexists. split; [done|].
  assert (∀ t, t < n_volumes (bold inputs) →
    ∃ v1 v2 v3 mv,
      s1 !! t = Some v1 ∧ s2 !! t = Some v2 ∧ s3 !! t = Some v3
      ∧ movpar !! t = Some mv
      ∧ zip_with (λ r br, take 3 r ++ br ++ drop 9 r)
          (with_traces s1 s2 s3) movpar !! t
        = Some (np_mean v1 :: np_mean v2 :: np_mean v3 :: mv)) as Hrows.
  { intros t Ht.
    destruct (lookup_lt_is_Some_2 s1 t) as [v1 Hv1]; [lia|].
    destruct (lookup_lt_is_Some_2 s2 t) as [v2 Hv2]; [lia|].
    destruct (lookup_lt_is_Some_2 s3 t) as [v3 Hv3]; [lia|].
    destruct (lookup_lt_is_Some_2 movpar t) as [mv Hmv]; [lia|].
    exists v1, v2, v3, mv. repeat (split; [done|]).
    rewrite lookup_zip_with, (with_traces_lookup _ _ _ _ _ _ _ Hv1 Hv2 Hv3).
    rewrite Hmv. simpl. by rewrite app_nil_r. }
  split; [rewrite length_zip_with; lia|]. split; [|done].
  apply Forall_lookup. intros t row Hrow.
  assert (t < n_volumes (bold inputs)) as Ht.
  { apply lookup_lt_Some in Hrow. rewrite length_zip_with in Hrow. lia. }
  destruct (Hrows t Ht) as (v1 & v2 & v3 & mv & _ & _ & _ & Hmv & Hc).
  rewrite Hc in Hrow. injection Hrow as <-.
  rewrite Forall_lookup in H6. specialize (H6 _ _ Hmv). simpl. lia.
Qed.

(** The flag plays no part in the assembly. *)
Lemma assemble_with_GSR g inputs :
  assemble_confounds (with_GSR g inputs) = assemble_confounds inputs.
Proof. done. Qed.


(** Columns 0,1,2,4,...,8 of a 9-column matrix. *)
Lemma getcols_r_ (conf : matrix) :
  Forall (λ r, length r = 9) conf →
  getcols conf (np_r_ [(0, 3); (4, 9)])
  = inr ((λ r, take 3 r ++ drop 4 r) <$> conf).
Proof.
  intros H9. unfold getcols.
  assert (mapM (λ r : list val, mapM (λ i, r !! i) (np_r_ [(0, 3); (4, 9)]))
            conf = Some ((λ r, take 3 r ++ drop 4 r) <$> conf)) as ->; [|done].
  apply mapM_Some. apply Forall2_fmap_r, Forall_Forall2_diag.
  eapply Forall_impl; [exact H9|]. intros r Hr.
  by destruct r as [|? [|? [|? [|? [|? [|? [|? [|? [|? [|]]]]]]]]]].
Qed.

Lemma with_traces_width (s1 s2 s3 : matrix) :
  Forall (λ r, length r = 9) (with_traces s1 s2 s3).
Proof.
  apply Forall_lookup. intros t r Hr. unfold with_traces, np_zeros in Hr.
  apply lookup_zip_with_Some in Hr as (r2 & x2 & -> & Hr & _).
  apply lookup_zip_with_Some in Hr as (r1 & x1 & -> & Hr & _).
  apply lookup_zip_with_Some in Hr as (r0 & x0 & -> & Hr & _).
  apply lookup_replicate in Hr as [-> _].
  by rewrite !length_insert, length_replicate.
Qed.

(** Whenever the matrix is assembled its rows are 9 wide. *)
Lemma assemble_confounds_width inputs conf :
  (assemble_confounds inputs).2 = inr conf → Forall (λ r, length r = 9) conf.
Proof.
  rewrite assemble_confounds_eq.
  destruct (apply_mask _ (WM_mask inputs)) as [?|s1]; [done|].
  destruct (apply_mask _ (CSF_mask inputs)) as [?|s2]; [done|].
  destruct (apply_mask _ (brain_mask inputs)) as [?|s3]; [done|].
  destruct (extract_rigid_movpar _) as [?|movpar] eqn:Em; [done|].
  pose proof (extract_rigid_movpar_width _ _ Em) as H6.
  pose proof (with_traces_width s1 s2 s3) as H9.
  cbn -[setblock with_traces].
  assert (∀ r br : list val, length r = 9 → length br = 6 →
            length (take 3 r ++ br ++ drop 9 r) = 9) as Hput.
  { intros r br Hr Hbr.
    rewrite !length_app, length_take, length_drop. lia. }
  unfold setblock. case_decide.
  - intros [= <-]. apply Forall_lookup. intros t r Hr.
    apply lookup_zip_with_Some in Hr as (r0 & br & -> & Hr0 & Hbr).
    rewrite Forall_lookup in H9. rewrite Forall_lookup in H6.
    apply Hput; eauto.
  - destruct movpar as [|br [|]]; [done| |done].
    intros [= <-]. apply Forall_fmap. eapply Forall_impl; [exact H9|].
    intros r Hr. simpl. apply Hput; [done|]. by inversion H6.
Qed.

Lemma assemble_confounds_log inputs :
  csv_writes (assemble_confounds inputs).1 = []
  ∧ clean_calls (assemble_confounds inputs).1 = [].
Proof.
  rewrite assemble_confounds_eq.
  destruct (apply_mask _ (WM_mask inputs)); [done|].
  destruct (apply_mask _ (CSF_mask inputs)); [done|].
  by destruct (apply_mask _ (brain_mask inputs)).
Qed.

Lemma clean_bold_log b m :
  csv_writes (clean_bold b m).1 = []
  ∧ clean_calls (clean_bold b m).1
    = [(b, CleanArgs true true (1 # 100) m (12 # 10))].
Proof.
  unfold clean_bold. cbn.
  destruct (clean_img b _) as [e|regressed]; cbn; [done|].
  by destruct (smooth_img regressed _) as [e|cleaned].
Qed.

Lemma run_interface_unfold inputs :
  _run_interface inputs =
    (confounds ← assemble_confounds inputs;
     confounds_csv ← write_confound_csv confounds csv_columns;
     cleaned ← clean_step inputs confounds;
     mret {| cleaned_bold := cleaned; confounds_csv := confounds_csv |}).
Proof. done. Qed.

Lemma clean_step_log inputs conf :
  csv_writes (clean_step inputs conf).1 = []
  ∧ clean_calls (clean_step inputs conf).1
    = if apply_GSR inputs then
        [(bold inputs, CleanArgs true true (1 # 100) conf (12 # 10))]
      else
        match getcols conf (np_r_ [(0, 3); (4, 9)]) with
        | inr selected =>
            [(bold inputs,
              CleanArgs true true (1 # 100) selected (12 # 10))]
        | inl _ => []
        end.
Proof.
  unfold clean_step. destruct (apply_GSR inputs); [apply clean_bold_log|].
  destruct (getcols conf _) as [e|selected]; [done|].
  cbn -[clean_bold]. pose proof (clean_bold_log (bold inputs) selected).
  by destruct (clean_bold (bold inputs) selected).
Qed.

(** An error while the matrix is assembled ends the run. *)
Lemma run_interface_assembly_error inputs e :
  (assemble_confounds inputs).2 = inl e →
  (_run_interface inputs).2 = inl e
  ∧ csv_writes (_run_interface inputs).1 = []
  ∧ clean_calls (_run_interface inputs).1 = [].
Proof.
  rewrite run_interface_unfold.
  pose proof (assemble_confounds_log inputs) as [Hcsv Hclean].
  destruct (assemble_confounds inputs) as [t [e'|conf]]; [|done].
  simpl in *. by intros [= <-].
Qed.

(** After the matrix is assembled, the table is written before, and whatever
    comes of, the cleaning. *)
Lemma run_interface_assembled inputs conf :
  (assemble_confounds inputs).2 = inr conf →
  Forall (λ r, length r = 9) conf →
  csv_writes (_run_interface inputs).1
    = [("confounds.csv", to_csv csv_columns conf)]
  ∧ clean_calls (_run_interface inputs).1
    = clean_calls (clean_step inputs conf).1.
Proof.
  rewrite run_interface_unfold.
  pose proof (assemble_confounds_log inputs) as [Hcsv Hclean].
  destruct (assemble_confounds inputs) as [t [e'|conf']]; [done|].
  simpl in *. intros [= ->] H9.
  unfold write_confound_csv. rewrite decide_True by done.
  cbn -[clean_step to_csv csv_columns].
  pose proof (clean_step_log inputs conf) as [Hcsv' _].
  destruct (clean_step inputs conf) as [t' [e|cleaned]];
    cbn -[to_csv csv_columns] in *.
  - unfold csv_writes, clean_calls in *.
    rewrite !omap_app, Hcsv, Hclean. cbn -[to_csv csv_columns].
    by rewrite Hcsv'.
  - unfold csv_writes, clean_calls in *.
    rewrite !omap_app, Hcsv, Hclean. cbn -[to_csv csv_columns].
    rewrite !omap_app, Hcsv'. cbn. by rewrite !app_nil_r.
Qed.

(** The engine writes the table exactly when the matrix is assembled, and
    then makes one cleaning call. *)
Lemma run_interface_log inputs :
  csv_writes (_run_interface inputs).1
  = match (assemble_confounds inputs).2 with
    | inr conf => [("confounds.csv", to_csv csv_columns conf)]
    | inl _ => []
    end
  ∧ clean_calls (_run_interface inputs).1
    = match (assemble_confounds inputs).2 with
      | inr conf =>
          [(bold inputs,
            CleanArgs true true (1 # 100)
              (if apply_GSR inputs then conf
               else (λ r, take 3 r ++ drop 4 r) <$> conf)
              (12 # 10))]
      | inl _ => []
      end.
Proof.
  destruct (assemble_confounds inputs).2 as [e|conf] eqn:Ha.
  - by destruct (run_interface_assembly_error inputs e Ha) as (_ & -> & ->).
  - pose proof (assemble_confounds_width inputs conf Ha) as H9.
    destruct (run_interface_assembled inputs conf Ha H9) as [-> ->].
    split; [done|].
    destruct (clean_step_log inputs conf) as [_ ->].
    destruct (apply_GSR inputs); [done|]. by rewrite getcols_r_.
Qed.

End EngineProofs.

(** C4: when the three traces are extracted and the motion table has one
    row per volume, the assembled matrix has one row per volume and 9
    columns: the white-matter, CSF and whole-brain mean traces, then the
    six motion parameters of that volume, in this order.  The engine writes
    this whole matrix, under the labels WM_signal, CSF_signal, global_signal,
    mov1, mov2, mov3, rot1, rot2, rot3, to confounds.csv exactly once,
    whatever the global-signal flag. *)
Theorem confound_matrix_assembled_and_persisted `{L : Library}
    (inputs : ConfoundRegressionInputSpec) (s1 s2 s3 movpar : matrix) :
  apply_mask (bold inputs) (WM_mask inputs) = inr s1 →
  apply_mask (bold inputs) (CSF_mask inputs) = inr s2 →
  apply_mask (bold inputs) (brain_mask inputs) = inr s3 →
  extract_rigid_movpar (movpar_file inputs) = inr movpar →
  length movpar = n_volumes (bold inputs) →
  ∃ conf,
    (assemble_confounds inputs).2 = inr conf
    ∧ length conf = n_volumes (bold inputs)
    ∧ Forall (λ r, length r = 9) conf
    ∧ (∀ t, t < n_volumes (bold inputs) →
         ∃ v1 v2 v3 m1 m2 m3 r1 r2 r3,
           s1 !! t = Some v1 ∧ s2 !! t = Some v2 ∧ s3 !! t = Some v3
           ∧ movpar !! t = Some [m1; m2; m3; r1; r2; r3]
           ∧ conf !! t = Some [np_mean v1; np_mean v2; np_mean v3;
                               m1; m2; m3; r1; r2; r3])
    ∧ ∀ g, csv_writes (_run_interface (with_GSR g inputs)).1
           = [("confounds.csv",
               [Label ""; Label "WM_signal"; Label "CSF_signal";
                Label "global_signal"; Label "mov1"; Label "mov2";
                Label "mov3"; Label "rot1"; Label "rot2"; Label "rot3"]
               :: imap (λ i r, RowIndex i :: (Cell <$> r)) conf)].
Proof.
  intros E1 E2 E3 Em Hlen.
  destruct (assemble_confounds_rows inputs s1 s2 s3 movpar E1 E2 E3 Em Hlen)
    as (conf & Ha & Hn & H9 & Hrows).
  exists conf. rewrite Ha. split; [done|]. split; [done|]. split; [done|].
  split.
  - intros t Ht.
    destruct (Hrows t Ht) as (v1 & v2 & v3 & mv & ? & ? & ? & Hmv & Hc).
    pose proof (extract_rigid_movpar_width _ _ Em) as H6.
    rewrite Forall_lookup in H6. specialize (H6 _ _ Hmv).
    destruct mv as [|m1 [|m2 [|m3 [|r1 [|r2 [|r3 [|]]]]]]]; try done.
    by exists v1, v2, v3, m1, m2, m3, r1, r2, r3.
  - intros g.
    apply (run_interface_assembled (with_GSR g inputs) conf); [|done].
    by rewrite assemble_with_GSR, Ha.
Qed.

(** C1: with the global-signal flag on, the engine hands all 9 columns to
    the regression; with the flag off it hands over columns 0,1,2,4,...,8:
    the whole-brain column (index 2) stays in and the first motion column
    (index 3) is left out. *)
Theorem regression_drops_column_3_not_2 `{L : Library}
    (inputs : ConfoundRegressionInputSpec) (conf : matrix) :
  (assemble_confounds inputs).2 = inr conf →
  clean_calls (_run_interface (with_GSR true inputs)).1
    = [(bold inputs, CleanArgs true true (1 # 100) conf (12 # 10))]
  ∧ ∃ selected,
      clean_calls (_run_interface (with_GSR false inputs)).1
        = [(bold inputs, CleanArgs true true (1 # 100) selected (12 # 10))]
      ∧ length selected = length conf
      ∧ ∀ t wm csf gs m1 m2 m3 r1 r2 r3,
          conf !! t = Some [wm; csf; gs; m1; m2; m3; r1; r2; r3] →
          selected !! t = Some [wm; csf; gs; m2; m3; r1; r2; r3].
Proof.
  intros Ha. split.
  - destruct (run_interface_log (with_GSR true inputs)) as [_ ->].
    by rewrite assemble_with_GSR, Ha.
  - exists ((λ r, take 3 r ++ drop 4 r) <$> conf).
    destruct (run_interface_log (with_GSR false inputs)) as [_ ->].
    rewrite assemble_with_GSR, Ha.
    split; [done|]. split; [by rewrite length_fmap|].
    intros t wm csf gs m1 m2 m3 r1 r2 r3 Ht.
    by rewrite list_lookup_fmap, Ht.
Qed.

(** C3: whatever the configuration of the pipeline, and its repetition time
    in particular, every cleaning call of a confound-regression stage of the
    built workflow is made on the stage's own series with linear detrending
    and standardization on, a high-pass cutoff of 0.01 and t_r fixed at 1.2;
    once the matrix is assembled there is exactly one such call. *)
Theorem clean_img_called_with_fixed_t_r `{L : Library}
    (c : Main.config) (b : Main.built) (confs : Confs.built)
    (s : Confs.stage) (g : bool) (inputs : ConfoundRegressionInputSpec) :
  Main.init_func_preproc_wf c = inr b →
  Main.confs_of b = Some confs →
  Confs.regression_flag confs s = Some g →
  (∀ series a,
     (series, a) ∈ clean_calls (_run_interface (with_GSR g inputs)).1 →
     series = bold inputs
     ∧ detrend a = true ∧ standardize a = true
     ∧ high_pass a = (1 # 100)%Q ∧ t_r a = (12 # 10)%Q)
  ∧ (∀ conf,
       (assemble_confounds inputs).2 = inr conf →
       ∃ a, clean_calls (_run_interface (with_GSR g inputs)).1
            = [(bold inputs, a)]).
Proof.
  intros _ _ _.
  destruct (run_interface_log (with_GSR g inputs)) as [_ ->].
  rewrite assemble_with_GSR. split.
  - intros series a.
    destruct (assemble_confounds inputs).2 as [e|conf];
      [by intros ?%elem_of_nil|].
    by intros [= -> ->]%list_elem_of_singleton.
  - intros conf ->. by eexists.
Qed.



(** C8: the table that [write_confound_csv] writes for a matrix of N rows
    and 9 columns reads back as the same 9 column names in the same order
    and the same N rows of cells. *)
Theorem confound_csv_round_trip `{L : Library} (confound_array : matrix) :
  Forall (λ r, length r = 9) confound_array →
  ∃ lines,
    write_confound_csv confound_array csv_columns
      = ([To_csv "confounds.csv" lines], inr "confounds.csv")
    ∧ read_confound_csv lines = Some (csv_columns, confound_array)
    ∧ length csv_columns = 9
    ∧ length lines = S (length confound_array).
Proof.
  intros H9. exists (to_csv csv_columns confound_array).
  split; [|split; [|split]].
  - unfold write_confound_csv. by rewrite decide_True.
  - unfold read_confound_csv, to_csv.
    assert (mapM (λ f, match f with Label s => Some s | _ => None end)
              (Label <$> csv_columns) = Some csv_columns) as ->.
    { apply mapM_Some, Forall2_fmap_l, Forall_Forall2_diag.
      by apply Forall_true. }
    cbn -[csv_columns mapM imap].
    assert (mapM (λ line,
              match line with
              | RowIndex _ :: cells =>
                  mapM (λ f, match f with Cell v => Some v | _ => None end)
                    cells
              | _ => None
              end) (imap (λ i r, RowIndex i :: (Cell <$> r)) confound_array)
            = Some confound_array) as ->.
    { apply mapM_Some. apply Forall2_same_length_lookup.
      split; [by rewrite length_imap|].
      intros i line r Hline Hr. rewrite list_lookup_imap, Hr in Hline.
      injection Hline as <-.
      apply mapM_Some, Forall2_fmap_l, Forall_Forall2_diag.
      by apply Forall_true. }
    cbn -[csv_columns]. by rewrite decide_True.
  - done.
  - unfold to_csv. simpl. by rewrite length_imap.
Qed.

(** ** The workflow graphs *)

Lemma decide_iff (P : Prop) `{Decision P} (flag : bool) :
  bool_decide P = flag → P ↔ flag = true.
Proof.
  intros <-. split.
  - by apply bool_decide_eq_true_2.
  - by apply bool_decide_eq_true_1.
Qed.

Ltac by_evaluation :=
  first [ apply decide_iff; vm_compute; reflexivity
        | compute_done ].

(** The stage and the edges of the flag extend one fixed graph. *)
Lemma init_bold_confs_wf_builds (name : string) :
  ∃ base,
    (∀ g, Confs.init_bold_confs_wf g name
          = inr (Confs.Built (Confs.node g)
                   (Workflow name (if g then base ++ GSR_edges else base))))
    ∧ Forall (λ e, ¬ touches e Confs.GSR_confound_regression) base.
Proof.
  eexists. split.
  - intros [|].
    2: vm_compute; reflexivity.
    vm_compute; reflexivity.
  - by_evaluation.
Qed.

(** C10: whatever the flag, every confound-regression stage of the built
    confound workflow takes its series from the skull-stripping stage, which
    masks the workflow's input series with the brain mask resampled onto
    the reference EPI; no edge brings the raw series to a regression
    stage. *)
Theorem regression_stages_read_the_skullstripped_series
    (g : bool) (name : string) :
  ∃ b,
    Confs.init_bold_confs_wf g name = inr b
    ∧ (∀ s flag,
         Confs.regression_flag b s = Some flag →
         s ∈ wf_nodes (Confs.graph b)
         ∧ producer (Confs.graph b) s "bold"
           = [(Confs.skullstrip, "skullstrip_brain")])
    ∧ Confs.nodes b Confs.skullstrip = Some (MkNode Skullstrip "skullstrip")
    ∧ producer (Confs.graph b) Confs.skullstrip "in_file"
      = [(Confs.inputnode, "bold")]
    ∧ producer (Confs.graph b) Confs.skullstrip "brain_mask"
      = [(Confs.brain_mask_to_EPI, "EPI_mask")]
    ∧ Confs.nodes b Confs.brain_mask_to_EPI
      = Some (MkNode (MaskEPI false) "Brain_mask_EPI")
    ∧ producer (Confs.graph b) Confs.brain_mask_to_EPI "mask"
      = [(Confs.inputnode, "t1_mask")]
    ∧ producer (Confs.graph b) Confs.brain_mask_to_EPI "ref_EPI"
      = [(Confs.inputnode, "ref_bold")]
    ∧ Forall (λ e, is_Some (Confs.regression_flag b (dst e)) →
                   src e ≠ Confs.inputnode ∨ src_port e ≠ "bold")
        (wf_edges (Confs.graph b)).
Proof.
  destruct g; eexists; (split; [vm_compute; reflexivity|]).
  - split.
    { intros s flag Hs. destruct s; try discriminate Hs;
        (split; [by_evaluation|by vm_compute]). }
    repeat (split; [by vm_compute|]).
    apply Forall_forall. intros e He [flag Hflag].
    repeat (apply elem_of_cons in He as [->|He]; [simpl|]);
      try (by left); try (by right); try discriminate Hflag.
    by apply elem_of_nil in He.
  - split.
    { intros s flag Hs. destruct s; try discriminate Hs;
        (split; [by_evaluation|by vm_compute]). }
    repeat (split; [by vm_compute|]).
    apply Forall_forall. intros e He [flag Hflag].
    repeat (apply elem_of_cons in He as [->|He]; [simpl|]);
      try (by left); try (by right); try discriminate Hflag.
    by apply elem_of_nil in He.
Qed.

(** C5: built with the flag on, the confound workflow has exactly two
    confound-regression stages, one with the flag off and one with it on;
    each of their five input ports is fed by the same producer; their
    cleaned series leave through the outputs cleaned_bold and
    GSR_cleaned_bold; the single confound-table output comes from the stage
    with the flag off, and the table either stage writes for the same
    inputs is the same. *)
Theorem gsr_workflow_runs_two_regression_stages (name : string) :
  ∃ b,
    Confs.init_bold_confs_wf true name = inr b
    ∧ (∀ s, Confs.regression_flag b s
            = match s with
              | Confs.confound_regression => Some false
              | Confs.GSR_confound_regression => Some true
              | _ => None
              end)
    ∧ Confs.confound_regression ∈ wf_nodes (Confs.graph b)
    ∧ Confs.GSR_confound_regression ∈ wf_nodes (Confs.graph b)
    ∧ Forall (λ p,
        producer (Confs.graph b) Confs.GSR_confound_regression p
        = producer (Confs.graph b) Confs.confound_regression p
        ∧ length (producer (Confs.graph b) Confs.confound_regression p) = 1)
        ["bold"; "movpar_file"; "brain_mask"; "WM_mask"; "CSF_mask"]
    ∧ producer (Confs.graph b) Confs.outputnode "cleaned_bold"
      = [(Confs.confound_regression, "cleaned_bold")]
    ∧ producer (Confs.graph b) Confs.outputnode "GSR_cleaned_bold"
      = [(Confs.GSR_confound_regression, "cleaned_bold")]
    ∧ producer (Confs.graph b) Confs.outputnode "confounds_csv"
      = [(Confs.confound_regression, "confounds_csv")]
    ∧ filter (λ e, src_port e = "confounds_csv") (wf_edges (Confs.graph b))
      = [Edge Confs.confound_regression "confounds_csv" Confs.outputnode
           "confounds_csv"]
    ∧ ∀ (L : Library) (inputs : ConfoundRegressionInputSpec),
        csv_writes (_run_interface (with_GSR true inputs)).1
        = csv_writes (_run_interface (with_GSR false inputs)).1.
Proof.
  eexists. split; [vm_compute; reflexivity|].
  split; [by intros []|].
  do 2 (split; [by_evaluation|]).
  split; [by repeat constructor|].
  do 4 (split; [by vm_compute|]).
  intros L inputs.
  destruct (run_interface_log (with_GSR true inputs)) as [-> _].
  destruct (run_interface_log (with_GSR false inputs)) as [-> _].
  by rewrite !assemble_with_GSR.
Qed.

(** C7: the slice-timing stage and the edges that touch it are in the main
    graph exactly when apply_STC is on, and the GSR regression stage and the
    edges that touch it are in the confound graph exactly when apply_GSR is
    on; two configurations with the same two flags build the same edges. *)
Theorem gated_stages_and_edges_follow_the_flags (c : Main.config) :
  ∃ b confs,
    Main.init_func_preproc_wf c = inr b
    ∧ Main.confs_of b = Some confs
    ∧ (Main.bold_stc_wf ∈ wf_nodes (Main.graph b)
       ↔ Main.apply_STC c = true)
    ∧ (is_Some (Main.nodes b Main.bold_stc_wf) ↔ Main.apply_STC c = true)
    ∧ filter (λ e, touches e Main.bold_stc_wf) (wf_edges (Main.graph b))
      = (if Main.apply_STC c then STC_edges else [])
    ∧ (Confs.GSR_confound_regression ∈ wf_nodes (Confs.graph confs)
       ↔ Main.apply_GSR c = true)
    ∧ (is_Some (Confs.nodes confs Confs.GSR_confound_regression)
       ↔ Main.apply_GSR c = true)
    ∧ filter (λ e, touches e Confs.GSR_confound_regression)
        (wf_edges (Confs.graph confs))
      = (if Main.apply_GSR c then GSR_edges else [])
    ∧ ∀ c',
        Main.apply_STC c' = Main.apply_STC c →
        Main.apply_GSR c' = Main.apply_GSR c →
        ∃ b' confs',
          Main.init_func_preproc_wf c' = inr b'
          ∧ Main.confs_of b' = Some confs'
          ∧ wf_edges (Main.graph b') = wf_edges (Main.graph b)
          ∧ wf_edges (Confs.graph confs') = wf_edges (Confs.graph confs).
Proof.
  destruct c as [f omp syn tr stc n4 gsr nm].
  unfold Main.init_func_preproc_wf. cbn [Main.bold_file Main.apply_GSR
    Main.apply_STC Main.TR Main.iterative_N4 Main.use_syn Main.omp_nthreads
    Main.name].
  destruct (Main._create_mem_gb f) as [tlen mem].
  destruct stc, gsr;
    (eexists; eexists; split; [vm_compute; reflexivity|]);
    (split; [reflexivity|]);
    (split; [by_evaluation|]);
    (split; [by_evaluation|]);
    (split; [by vm_compute|]);
    (split; [by_evaluation|]);
    (split; [by_evaluation|]);
    (split; [by vm_compute|]);
    intros [f' omp' syn' tr' stc' n4' gsr' nm']; simpl; intros -> ->;
    destruct (Main._create_mem_gb f') as [tlen' mem'];
    (eexists; eexists; split; [vm_compute; reflexivity|]);
    (split; [reflexivity|]); by vm_compute.
Qed.

(** ** The resource estimator *)

Lemma py_max_floor (x : Q) :
  (1 <= Main.py_max x 1)%Q
  ∧ ((x <= 1)%Q → (Main.py_max x 1 == 1)%Q)
  ∧ ((1 <= x)%Q → Main.py_max x 1 = x).
Proof.
  unfold Main.py_max. destruct (Qle_bool 1 x) eqn:E.
  - apply Qle_bool_iff in E. split; [done|]. split; [|done].
    intros ?. by apply Qle_antisym.
  - split; [apply Qle_refl|]. split; [reflexivity|].
    intros H%Qle_bool_iff. congruence.
Qed.

(** C2: for a file of S bytes whose last dimension is L, the estimator
    returns L and: the base estimate S / 1024^3; the resampled estimate, 4
    times the base; and the high-memory estimate, the base times
    (max(L/100, 1) + 4), that is base * max(L/100, 1) plus 4 times the base:
    5 times the base up to 100 volumes and base * (L/100 + 4) from there. *)
Theorem create_mem_gb_estimates (bold_fname : Main.nifti_file) :
  let S := inject_Z (Main.getsize bold_fname) in
  let len := inject_Z (Main.shape_last bold_fname) in
  let mem_gb := (Main._create_mem_gb bold_fname).2 in
  (Main._create_mem_gb bold_fname).1 = Main.shape_last bold_fname
  ∧ (Main.filesize mem_gb == S / inject_Z (1024 ^ 3))%Q
  ∧ (Main.resampled mem_gb == 4 * Main.filesize mem_gb)%Q
  ∧ (Main.largemem mem_gb
     == Main.filesize mem_gb * Main.py_max (len / 100) 1
        + 4 * Main.filesize mem_gb)%Q
  ∧ ((Main.shape_last bold_fname ≤ 100)%Z →
     (Main.largemem mem_gb == 5 * Main.filesize mem_gb)%Q)
  ∧ ((100 ≤ Main.shape_last bold_fname)%Z →
     (Main.largemem mem_gb == Main.filesize mem_gb * (len / 100 + 4))%Q).
Proof.
  intros S len mem_gb. subst mem_gb. unfold Main._create_mem_gb. simpl.
  fold S len.
  destruct (py_max_floor (len / 100)) as (_ & Hlow & Hhigh).
  split; [done|]. split; [reflexivity|]. split; [ring|]. split; [ring|].
  split.
  - intros HL. rewrite Hlow; [ring|].
    apply Qle_shift_div_r; [done|].
    subst len. rewrite Zle_Qle in HL. by rewrite Qmult_1_l.
  - intros HL. rewrite Hhigh; [reflexivity|].
    apply Qle_shift_div_l; [done|].
    subst len. rewrite Zle_Qle in HL. by rewrite Qmult_1_l.
Qed.

(** ** Closed examples on the reference library *)

(** At 2 GiB and 100 volumes the high-memory estimate is 10, not
    2 * max(100/100, 1) + 4 = 6. *)
Lemma largemem_is_not_base_times_max_plus_4 :
  ¬ (Main.largemem (Main._create_mem_gb Ref.two_gib).2
     == Main.filesize (Main._create_mem_gb Ref.two_gib).2
        * Main.py_max (inject_Z (Main.shape_last Ref.two_gib) / 100) 1
        + 4)%Q.
Proof. vm_compute. discriminate. Qed.

(** With a repetition time of 2 in the configuration, the regression stage
    of the built workflow still calls the cleaning with t_r = 1.2. *)
Lemma clean_img_t_r_is_not_the_configured_TR :
  ∃ b confs a,
    Main.init_func_preproc_wf Ref.config = inr b
    ∧ Main.confs_of b = Some confs
    ∧ Confs.regression_flag confs Confs.confound_regression = Some false
    ∧ clean_calls
        (_run_interface
           (with_GSR false (Ref.sample Ref.two_rows Ref.wm_voxel))).1
      = [(bold (Ref.sample Ref.two_rows Ref.wm_voxel), a)]
    ∧ ¬ (t_r a == Main.TR Ref.config)%Q.
Proof.
  do 3 eexists. split; [vm_compute; reflexivity|].
  split; [reflexivity|]. split; [reflexivity|].
  split; [vm_compute; reflexivity|].
  vm_compute. discriminate.
Qed.


Lemma regression_drops_column_3_not_2_witness :
  ∃ conf selected,
    (assemble_confounds (Ref.sample Ref.two_rows Ref.wm_voxel)).2 = inr conf
    ∧ clean_calls
        (_run_interface
           (with_GSR false (Ref.sample Ref.two_rows Ref.wm_voxel))).1
      = [(bold (Ref.sample Ref.two_rows Ref.wm_voxel),
          CleanArgs true true (1 # 100) selected (12 # 10))]
    ∧ length selected = length conf.
Proof.
  eexists.
  edestruct (regression_drops_column_3_not_2 (L := Ref.library)
               (Ref.sample Ref.two_rows Ref.wm_voxel))
    as (_ & selected & Hcall & Hlen & _).
  - vm_compute; reflexivity.
  - exists selected. split; [reflexivity|]. split; [exact Hcall|exact Hlen].
Defined.

Lemma clean_img_called_with_fixed_t_r_witness :
  ∃ a,
    clean_calls
      (_run_interface
         (with_GSR false (Ref.sample Ref.two_rows Ref.wm_voxel))).1
    = [(bold (Ref.sample Ref.two_rows Ref.wm_voxel), a)]
    ∧ t_r a = (12 # 10)%Q.
Proof.
  pose proof (λ b confs,
    clean_img_called_with_fixed_t_r (L := Ref.library) Ref.config
      b confs Confs.confound_regression false
      (Ref.sample Ref.two_rows Ref.wm_voxel)) as Hfixed.
  edestruct Hfixed as [Hall Hone].
  - vm_compute; reflexivity.
  - reflexivity.
  - reflexivity.
  - edestruct Hone as [a Ha]; [vm_compute; reflexivity|].
    exists a. split; [exact Ha|].
    apply (Hall (bold (Ref.sample Ref.two_rows Ref.wm_voxel)) a).
    rewrite Ha. apply list_elem_of_here.
Defined.

Lemma confound_matrix_assembled_and_persisted_witness :
  ∃ conf : list (list (option Q)),
    length conf = 2
    ∧ ∀ g,
        csv_writes
          (_run_interface
             (with_GSR g (Ref.sample Ref.two_rows Ref.wm_voxel))).1
        = [("confounds.csv",
            [Label ""; Label "WM_signal"; Label "CSF_signal";
             Label "global_signal"; Label "mov1"; Label "mov2";
             Label "mov3"; Label "rot1"; Label "rot2"; Label "rot3"]
            :: imap (λ i r, RowIndex i :: (Cell <$> r)) conf)].
Proof.
  edestruct (confound_matrix_assembled_and_persisted (L := Ref.library)
               (Ref.sample Ref.two_rows Ref.wm_voxel))
    as (conf & _ & Hlen & _ & _ & Hcsv).
  - vm_compute; reflexivity.
  - vm_compute; reflexivity.
  - vm_compute; reflexivity.
  - vm_compute; reflexivity.
  - vm_compute; reflexivity.
  - exists conf. split; [exact Hlen|exact Hcsv].
Defined.



Lemma confound_csv_round_trip_witness :
  ∃ lines,
    read_confound_csv (L := Ref.library) lines
    = Some (csv_columns,
            [Some <$> [1; 2; 3; 11; 12; 13; 14; 15; 16]%Q])
    ∧ length lines = 2.
Proof.
  destruct (confound_csv_round_trip (L := Ref.library)
              [Some <$> [1; 2; 3; 11; 12; 13; 14; 15; 16]%Q])
    as (lines & _ & Hread & _ & Hlen).
  - repeat constructor.
  - exists lines. split; [exact Hread|exact Hlen].
Defined.

Lemma extract_rigid_movpar_rows_and_columns_witness :
  ∃ movpar,
    extract_rigid_movpar (L := Ref.library) (Ref.motion_table Ref.two_rows)
    = inr movpar.
Proof.
  apply (extract_rigid_movpar_rows_and_columns (L := Ref.library)
           (Ref.motion_table Ref.two_rows)).
  - discriminate.
  - vm_compute. repeat constructor; by eexists.
Defined.

(** * Further properties of the sources *)

(** ** The engine's runs *)

Section EngineRuns.
Context `{L : Library}.

Lemma assemble_confounds_calls inputs conf :
  (assemble_confounds inputs).2 = inr conf →
  assemble_confounds inputs = (mask_calls inputs, inr conf).
Proof.
  rewrite assemble_confounds_eq.
  destruct (apply_mask _ (WM_mask inputs)); [done|].
  destruct (apply_mask _ (CSF_mask inputs)); [done|].
  destruct (apply_mask _ (brain_mask inputs)); [done|].
  simpl. by intros ->.
Qed.

(** Every run, step by step. *)
Lemma run_interface_eq inputs :
  _run_interface inputs =
    match assemble_confounds inputs with
    | (t, inl e) => (t, inl e)
    | (t, inr conf) =>
        let a := CleanArgs true true (1 # 100)
                   (regressed (apply_GSR inputs) conf) (12 # 10) in
        let written :=
          t ++ [To_csv "confounds.csv" (to_csv csv_columns conf);
                Call_clean_img (bold inputs) a] in
        match clean_img (bold inputs) a with
        | inl e => (written, inl e)
        | inr reg =>
            match smooth_img reg (3 # 10) with
            | inl e => (written ++ [Call_smooth_img reg (3 # 10)], inl e)
            | inr cleaned =>
                (written ++ [Call_smooth_img reg (3 # 10);
                             To_filename "cleaned.nii.gz" cleaned],
                 inr {| cleaned_bold := "cleaned.nii.gz";
                        confounds_csv := "confounds.csv" |})
            end
        end
    end.
Proof.
  rewrite run_interface_unfold.
  pose proof (assemble_confounds_width inputs) as H9.
  destruct (assemble_confounds inputs) as [t [e|conf]]; [done|].
  specialize (H9 conf eq_refl).
  cbn -[write_confound_csv clean_step to_csv csv_columns].
  unfold write_confound_csv. rewrite decide_True by done.
  assert (clean_step inputs conf
          = clean_bold (bold inputs) (regressed (apply_GSR inputs) conf))
    as ->.
  { unfold clean_step, regressed. destruct (apply_GSR inputs); [done|].
    rewrite getcols_r_ by done. cbn -[clean_bold].
    by destruct (clean_bold _ _). }
  unfold clean_bold. cbn -[to_csv csv_columns regressed].
  destruct (clean_img _ _) as [e|reg]; cbn -[to_csv csv_columns regressed];
    [done|].
  destruct (smooth_img reg _) as [e|cleaned];
    cbn -[to_csv csv_columns regressed];
    by rewrite <-!app_assoc.
Qed.

End EngineRuns.

(** X1: the engine returns exactly when the matrix is assembled and the
    cleaning and the smoothing both return; its log is then the three
    masking calls, the table, the cleaning call on the selected columns, the
    smoothing of the cleaned series with width 0.3 and the write of the
    smoothed series to cleaned.nii.gz, in this order, and its outputs are the
    two file names. *)
Theorem run_interface_returns_iff `{L : Library}
    (inputs : ConfoundRegressionInputSpec) (log : list event)
    (out : ConfoundRegressionOutputSpec) :
  _run_interface inputs = (log, inr out) ↔
  ∃ conf reg cleaned,
    (assemble_confounds inputs).2 = inr conf
    ∧ clean_img (bold inputs)
        (CleanArgs true true (1 # 100)
           (regressed (apply_GSR inputs) conf) (12 # 10)) = inr reg
    ∧ smooth_img reg (3 # 10) = inr cleaned
    ∧ out = {| cleaned_bold := "cleaned.nii.gz";
               confounds_csv := "confounds.csv" |}
    ∧ log = mask_calls inputs
            ++ [To_csv "confounds.csv" (to_csv csv_columns conf);
                Call_clean_img (bold inputs)
                  (CleanArgs true true (1 # 100)
                     (regressed (apply_GSR inputs) conf) (12 # 10));
                Call_smooth_img reg (3 # 10);
                To_filename "cleaned.nii.gz" cleaned].
Proof.
  rewrite run_interface_eq.
  pose proof (assemble_confounds_calls inputs) as Hcalls.
  destruct (assemble_confounds inputs) as [t [e|conf]].
  - split; [done|]. by intros (? & ? & ? & ? & _).
  - specialize (Hcalls conf eq_refl). injection Hcalls as ->.
    cbn zeta. split.
    + destruct (clean_img _ _) as [e|reg] eqn:Hc; [done|].
      destruct (smooth_img reg _) as [e|cleaned] eqn:Hs; [done|].
      intros [= <- <-]. by exists conf, reg, cleaned.
    + intros (conf' & reg & cleaned & [= <-] & Hc & Hs & -> & ->).
      by rewrite Hc, Hs.
Qed.

(** X2: when the cleaning or the smoothing raises after the matrix is
    assembled, the engine raises the same error; the confound table has
    been written all the same and no cleaned series is written. *)
Theorem cleaning_failure_leaves_the_table `{L : Library}
    (inputs : ConfoundRegressionInputSpec) (conf : matrix) (e : exn) :
  (assemble_confounds inputs).2 = inr conf →
  clean_img (bold inputs)
    (CleanArgs true true (1 # 100)
       (regressed (apply_GSR inputs) conf) (12 # 10)) = inl e
  ∨ (∃ reg,
       clean_img (bold inputs)
         (CleanArgs true true (1 # 100)
            (regressed (apply_GSR inputs) conf) (12 # 10)) = inr reg
       ∧ smooth_img reg (3 # 10) = inl e) →
  (_run_interface inputs).2 = inl e
  ∧ csv_writes (_run_interface inputs).1
    = [("confounds.csv", to_csv csv_columns conf)]
  ∧ ∀ path img, To_filename path img ∉ (_run_interface inputs).1.
Proof.
  intros Ha Hfail. rewrite run_interface_eq.
  apply assemble_confounds_calls in Ha. rewrite Ha. cbn zeta.
  destruct Hfail as [Hc|(reg & Hc & Hs)]; rewrite Hc; [|rewrite Hs];
    (split; [done|]); (split; [done|]);
    intros path img Hin;
    repeat (apply elem_of_app in Hin as [Hin|Hin]);
    repeat (apply elem_of_cons in Hin as [?|Hin]; [done|]);
    by apply elem_of_nil in Hin.
Qed.

Lemma cleaning_failure_leaves_the_table_witness :
  (_run_interface Faulty.sample).2 = inl LibraryError
  ∧ length (csv_writes (_run_interface Faulty.sample).1) = 1.
Proof.
  edestruct (cleaning_failure_leaves_the_table (L := Faulty.library)
               Faulty.sample) as (Hr & Hcsv & _).
  - vm_compute; reflexivity.
  - left. vm_compute; reflexivity.
  - split; [exact Hr|]. by rewrite Hcsv.
Defined.

(** X3: the matrix is assembled exactly when the masking returns for the
    three masks and the motion table parses to as many rows as the series
    has volumes, or to one row. *)
Theorem assembly_returns_iff `{L : Library}
    (inputs : ConfoundRegressionInputSpec) :
  (∃ conf, (assemble_confounds inputs).2 = inr conf) ↔
  ∃ s1 s2 s3 movpar,
    apply_mask (bold inputs) (WM_mask inputs) = inr s1
    ∧ apply_mask (bold inputs) (CSF_mask inputs) = inr s2
    ∧ apply_mask (bold inputs) (brain_mask inputs) = inr s3
    ∧ extract_rigid_movpar (movpar_file inputs) = inr movpar
    ∧ (length movpar = n_volumes (bold inputs) ∨ length movpar = 1).
Proof.
  rewrite assemble_confounds_eq.
  destruct (apply_mask _ (WM_mask inputs)) as [e1|s1] eqn:E1.
  { split; [by intros [? ?]|]. by intros (? & ? & ? & ? & ? & _). }
  destruct (apply_mask _ (CSF_mask inputs)) as [e2|s2] eqn:E2.
  { split; [by intros [? ?]|]. by intros (? & ? & ? & ? & _ & ? & _). }
  destruct (apply_mask _ (brain_mask inputs)) as [e3|s3] eqn:E3.
  { split; [by intros [? ?]|]. by intros (? & ? & ? & ? & _ & _ & ? & _). }
  pose proof (with_traces_length s1 s2 s3 _ (apply_mask_rows _ _ _ E1)
                (apply_mask_rows _ _ _ E2) (apply_mask_rows _ _ _ E3)) as Hw.
  destruct (extract_rigid_movpar _) as [e|movpar] eqn:Em.
  { split; [by intros [? ?]|]. by intros (? & ? & ? & ? & _ & _ & _ & ? & _). }
  cbn -[setblock with_traces]. unfold setblock. split.
  - intros [conf Hconf]. exists s1, s2, s3, movpar.
    repeat (split; [done|]).
    case_decide; [left; lia|]. right. by destruct movpar as [|? [|]].
  - intros (? & ? & ? & movpar' & _ & _ & _ & [= <-] & Hlen).
    case_decide; [by eexists|].
    destruct Hlen as [?|Hone]; [lia|].
    destruct movpar as [|? [|]]; try done. by eexists.
Qed.

(** X4: a motion table of one data row fills the motion columns of every
    volume with that row. *)
Theorem one_row_motion_table_fills_every_volume `{L : Library}
    (inputs : ConfoundRegressionInputSpec) (s1 s2 s3 : matrix)
    (mv : list val) :
  apply_mask (bold inputs) (WM_mask inputs) = inr s1 →
  apply_mask (bold inputs) (CSF_mask inputs) = inr s2 →
  apply_mask (bold inputs) (brain_mask inputs) = inr s3 →
  extract_rigid_movpar (movpar_file inputs) = inr [mv] →
  ∃ conf,
    (assemble_confounds inputs).2 = inr conf
    ∧ length conf = n_volumes (bold inputs)
    ∧ ∀ t v1 v2 v3,
        s1 !! t = Some v1 → s2 !! t = Some v2 → s3 !! t = Some v3 →
        conf !! t = Some (np_mean v1 :: np_mean v2 :: np_mean v3 :: mv).
Proof.
  intros E1 E2 E3 Em.
  pose proof (with_traces_length s1 s2 s3 _ (apply_mask_rows _ _ _ E1)
                (apply_mask_rows _ _ _ E2) (apply_mask_rows _ _ _ E3)) as Hw.
  rewrite assemble_confounds_eq, E1, E2, E3, Em.
  cbn -[setblock with_traces]. unfold setblock.
  case_decide as Hone; eexists; (split; [done|]).
  - split; [rewrite length_zip_with; simpl in *; lia|].
    intros t v1 v2 v3 H1 H2 H3.
    assert (t = 0) as ->.
    { simpl in Hone. apply lookup_lt_Some in H1.
      rewrite (apply_mask_rows _ _ _ E1) in H1. lia. }
    rewrite lookup_zip_with, (with_traces_lookup _ _ _ _ _ _ _ H1 H2 H3).
    simpl. by rewrite app_nil_r.
  - split; [by rewrite length_fmap|].
    intros t v1 v2 v3 H1 H2 H3.
    rewrite list_lookup_fmap, (with_traces_lookup _ _ _ _ _ _ _ H1 H2 H3).
    simpl. by rewrite app_nil_r.
Qed.

Lemma one_row_motion_table_fills_every_volume_witness :
  ∃ conf : list (list (option Q)),
    (assemble_confounds (Ref.sample Ref.one_row Ref.wm_voxel)).2 = inr conf
    ∧ length conf = 2.
Proof.
  edestruct (one_row_motion_table_fills_every_volume (L := Ref.library)
               (Ref.sample Ref.one_row Ref.wm_voxel))
    as (conf & Ha & Hlen & _).
  - vm_compute; reflexivity.
  - vm_compute; reflexivity.
  - vm_compute; reflexivity.
  - vm_compute; reflexivity.
  - exists conf. split; [exact Ha|exact Hlen].
Defined.

(** ** What the parser reads *)

Section MovparReads.
Context `{L : Library}.

Lemma fill_fields_ext (row row' : list string) idx j : ∀ movpar : matrix,
  (∀ i, i ∈ idx → row !! i = row' !! i) →
  fill_fields row idx j movpar = fill_fields row' idx j movpar.
Proof.
  induction idx as [|i idx IH]; intros movpar Hsame; [done|]. simpl.
  rewrite <-(Hsame i) by (by left).
  destruct (row !! i) as [s|]; [|done].
  destruct (py_float s) as [v|]; [|done].
  destruct (setitem2 movpar j (i - 2) v) as [e|movpar']; [done|]. simpl.
  apply IH. intros i' Hi'. apply Hsame. by right.
Qed.

Lemma fill_fields_from_third (row row' : list string) j (movpar : matrix) :
  drop 2 row = drop 2 row' →
  fill_fields row (range 2 (length row)) j movpar
  = fill_fields row' (range 2 (length row')) j movpar.
Proof.
  intros Hdrop. unfold range.
  assert (length row - 2 = length row' - 2) as <-.
  { by rewrite <-!length_drop, Hdrop. }
  apply fill_fields_ext. intros i [Hi _]%elem_of_seq.
  replace i with (2 + (i - 2)) by lia.
  by rewrite <-!lookup_drop, Hdrop.
Qed.

Lemma fill_rows_from_third (rows : list (list string)) :
  ∀ rows' j (movpar : matrix),
    drop 2 <$> rows = drop 2 <$> rows' →
    fill_rows rows j movpar = fill_rows rows' j movpar.
Proof.
  induction rows as [|row rows IH]; intros [|row' rows'] j movpar Hdrop;
    try done.
  injection Hdrop as Hrow Hrows. simpl.
  rewrite (fill_fields_from_third row row') by done.
  destruct (fill_fields row' _ j movpar) as [e|movpar']; [done|]. simpl.
  by apply IH.
Qed.

End MovparReads.

(** X5: the parser reads nothing but the number of rows and, in every row
    after the first, the fields from the third on: two files with as many
    rows that agree there give the same matrix, or the same error. *)
Theorem extract_rigid_movpar_reads_from_the_third_field `{L : Library}
    (temp temp' : list (list string)) :
  length temp = length temp' →
  drop 2 <$> tail temp = drop 2 <$> tail temp' →
  extract_rigid_movpar temp = extract_rigid_movpar temp'.
Proof.
  intros Hlen Hdrop. unfold extract_rigid_movpar. rewrite Hlen.
  case_decide; [done|]. by apply fill_rows_from_third.
Qed.

Lemma extract_rigid_movpar_reads_from_the_third_field_witness :
  extract_rigid_movpar (L := Ref.library) Samples.relabelled
  = extract_rigid_movpar (L := Ref.library) (Ref.motion_table Ref.two_rows).
Proof.
  apply (extract_rigid_movpar_reads_from_the_third_field (L := Ref.library)
           Samples.relabelled (Ref.motion_table Ref.two_rows));
    reflexivity.
Defined.

(** ** The estimates grow with the file *)

Lemma py_max_monotone (x y : Q) :
  (x <= y)%Q → (Main.py_max x 1 <= Main.py_max y 1)%Q.
Proof.
  intros Hxy. unfold Main.py_max.
  destruct (Qle_bool 1 x) eqn:Ex, (Qle_bool 1 y) eqn:Ey.
  - done.
  - apply Qle_bool_iff in Ex.
    assert (Qle_bool 1 y = true) as Ey'
      by (apply Qle_bool_iff; by eapply Qle_trans).
    congruence.
  - by apply Qle_bool_iff in Ey.
  - apply Qle_refl.
Qed.

(** X6: the three estimates are non-negative for a non-negative size and do
    not decrease when the size or the length of the series grows. *)
Theorem create_mem_gb_monotone (f f' : Main.nifti_file) :
  (0 ≤ Main.getsize f)%Z →
  (Main.getsize f ≤ Main.getsize f')%Z →
  (Main.shape_last f ≤ Main.shape_last f')%Z →
  let m := (Main._create_mem_gb f).2 in
  let m' := (Main._create_mem_gb f').2 in
  (0 <= Main.filesize m)%Q
  ∧ (Main.filesize m <= Main.filesize m')%Q
  ∧ (Main.resampled m <= Main.resampled m')%Q
  ∧ (Main.largemem m <= Main.largemem m')%Q.
Proof.
  intros H0 HS HL m m'. subst m m'. unfold Main._create_mem_gb. simpl.
  set (b := (inject_Z (Main.getsize f) / inject_Z 1073741824)%Q).
  set (b' := (inject_Z (Main.getsize f') / inject_Z 1073741824)%Q).
  assert (0 <= b)%Q as Hb.
  { subst b. apply Qle_shift_div_l; [done|].
    rewrite Qmult_0_l. by rewrite Zle_Qle in H0. }
  assert (b <= b')%Q as Hbb.
  { subst b b'. apply Qmult_le_compat_r; [by rewrite Zle_Qle in HS|done]. }
  destruct (py_max_floor (inject_Z (Main.shape_last f) / 100)) as (H1 & _).
  pose proof (py_max_monotone (inject_Z (Main.shape_last f) / 100)
                (inject_Z (Main.shape_last f') / 100)) as Hmax.
  split; [done|]. split; [done|].
  split; [by apply Qmult_le_compat_r|].
  apply Qmult_le_compat_nonneg.
  - done.
  - split.
    + apply (Qle_trans _ (1 + 4)); [done|].
      by apply Qplus_le_compat; [|apply Qle_refl].
    + apply Qplus_le_compat; [|apply Qle_refl]. apply Hmax.
      apply Qmult_le_compat_r; [by rewrite Zle_Qle in HL|done].
Qed.

Lemma create_mem_gb_monotone_witness :
  (Main.largemem (Main._create_mem_gb Samples.small).2
   <= Main.largemem (Main._create_mem_gb Ref.two_gib).2)%Q.
Proof.
  apply (create_mem_gb_monotone Samples.small Ref.two_gib); vm_compute;
    discriminate.
Defined.

(** ** The wiring of the workflows *)

Lemma ranked_acyclic {stage : Type} (rank : stage → nat)
    (g : list (edge stage)) :
  ranked rank g → acyclic g.
Proof.
  intros Hr s Hs.
  assert (∀ a b, tc (feeds g) a b → rank a < rank b) as Hup.
  { intros a b Hab. induction Hab as [a b Hab|a b c Hab _ IH].
    - apply Exists_exists in Hab as (e & He & <- & <-).
      unfold ranked in Hr. rewrite Forall_forall in Hr. by apply Hr.
    - apply Exists_exists in Hab as (e & He & <- & <-).
      unfold ranked in Hr. rewrite Forall_forall in Hr.
      specialize (Hr e He). lia. }
  specialize (Hup s s Hs). lia.
Qed.

(** X7: in the graph that [init_bold_confs_wf] wires, for either flag, no
    input port is bound twice, no stage reaches itself, every field of the
    input node is read, and every edge leaves a declared output and enters
    a declared input of its node, for the nodes whose interface is in the
    sources (identity, MaskEPI and ConfoundRegression nodes; Skullstrip is
    not). *)
Theorem confs_workflow_is_well_wired (g : bool) (name : string) :
  ∃ b fields,
    Confs.init_bold_confs_wf g name = inr b
    ∧ single_bound (wf_edges (Confs.graph b))
    ∧ acyclic (wf_edges (Confs.graph b))
    ∧ Confs.nodes b Confs.inputnode
      = Some (MkNode (IdentityInterface fields) "inputnode")
    ∧ Forall (consumed (wf_edges (Confs.graph b)) Confs.inputnode) fields
    ∧ ports_exist (confs_inputs b) (confs_outputs b)
        (wf_edges (Confs.graph b)).
Proof.
  destruct g; do 2 eexists; (split; [vm_compute; reflexivity|]);
    (split; [compute_done|]);
    (split; [|split; [reflexivity|split; compute_done]]);
    apply (ranked_acyclic (λ s,
      match s with
      | Confs.inputnode => 0
      | Confs.WM_mask_to_EPI | Confs.CSF_mask_to_EPI
      | Confs.brain_mask_to_EPI | Confs.propagate_labels => 1
      | Confs.skullstrip => 2
      | Confs.confound_regression | Confs.GSR_confound_regression => 3
      | Confs.outputnode => 4
      end)); compute_done.
Qed.

(** X8: where each input of a confound-regression stage comes from: the
    white-matter and CSF masks are the workflow's WM_mask and CSF_mask
    inputs, and the labels output the t1_labels input, each resampled by
    its own MaskEPI stage, built without transforms, onto the workflow's
    ref_bold; the motion table is the workflow's movpar_file input. *)
Theorem regression_inputs_come_from_their_own_masks
    (g : bool) (name : string) :
  ∃ b,
    Confs.init_bold_confs_wf g name = inr b
    ∧ (∀ s flag,
         Confs.regression_flag b s = Some flag →
         producer (Confs.graph b) s "WM_mask"
           = [(Confs.WM_mask_to_EPI, "EPI_mask")]
         ∧ producer (Confs.graph b) s "CSF_mask"
           = [(Confs.CSF_mask_to_EPI, "EPI_mask")]
         ∧ producer (Confs.graph b) s "brain_mask"
           = [(Confs.brain_mask_to_EPI, "EPI_mask")]
         ∧ producer (Confs.graph b) s "movpar_file"
           = [(Confs.inputnode, "movpar_file")])
    ∧ producer (Confs.graph b) Confs.WM_mask_to_EPI "mask"
      = [(Confs.inputnode, "WM_mask")]
    ∧ producer (Confs.graph b) Confs.CSF_mask_to_EPI "mask"
      = [(Confs.inputnode, "CSF_mask")]
    ∧ producer (Confs.graph b) Confs.propagate_labels "mask"
      = [(Confs.inputnode, "t1_labels")]
    ∧ producer (Confs.graph b) Confs.outputnode "EPI_labels"
      = [(Confs.propagate_labels, "EPI_mask")]
    ∧ Forall (λ s,
        (∃ n, Confs.nodes b s = Some (MkNode (MaskEPI false) n))
        ∧ producer (Confs.graph b) s "ref_EPI"
          = [(Confs.inputnode, "ref_bold")])
        [Confs.WM_mask_to_EPI; Confs.CSF_mask_to_EPI;
         Confs.brain_mask_to_EPI; Confs.propagate_labels].
Proof.
  destruct g; eexists; (split; [vm_compute; reflexivity|]);
    (split;
     [intros s flag Hs; destruct s; try discriminate Hs;
      repeat split; by vm_compute|]);
    do 4 (split; [by vm_compute|]);
    repeat constructor; try (by eexists); by vm_compute.
Qed.

(** X9: in the graph that [init_bold_hmc_wf] wires, every edge leaves a
    declared output and enters a declared input of its node (all three
    interfaces are in the sources), no input port is bound twice, no stage
    reaches itself, every field of the input node is read and every field
    of the output node is written. *)
Theorem hmc_workflow_is_well_wired (name : string) :
  ∃ b ins outs,
    Hmc.init_bold_hmc_wf name = inr b
    ∧ ports_exist (λ s, Hmc.inputs (Hmc.nodes b s))
        (λ s, Hmc.outputs (Hmc.nodes b s)) (wf_edges (Hmc.graph b))
    ∧ single_bound (wf_edges (Hmc.graph b))
    ∧ acyclic (wf_edges (Hmc.graph b))
    ∧ Hmc.nodes b Hmc.inputnode = Hmc.Identity "inputnode" ins
    ∧ Hmc.nodes b Hmc.outputnode = Hmc.Identity "outputnode" outs
    ∧ Forall (consumed (wf_edges (Hmc.graph b)) Hmc.inputnode) ins
    ∧ Forall (produced (wf_edges (Hmc.graph b)) Hmc.outputnode) outs.
Proof.
  do 3 eexists. split; [vm_compute; reflexivity|].
  do 2 (split; [compute_done|]).
  split; [|split; [reflexivity|split; [reflexivity|split; compute_done]]].
  apply (ranked_acyclic (λ s,
    match s with
    | Hmc.inputnode => 0
    | Hmc.motion_estimation => 1
    | Hmc.outputnode => 2
    end)); compute_done.
Qed.

(** X10: in the graph that [init_bold_preproc_trans_wf] wires, whatever its
    arguments, no input port is bound twice, no stage reaches itself, every
    field of the two identity nodes is connected and every port used on
    them is one of their fields; the transform node is set to apply the
    motion correction, the output series is the merged series and the
    output reference is computed from the merged series, whose header
    comes from name_source. *)
Theorem trans_workflow_is_well_wired {A B : Type}
    (isotropic_resampling : A) (upsampling : B) (data_type name : string) :
  ∃ b ins outs,
    Trans.init_bold_preproc_trans_wf isotropic_resampling upsampling
      data_type name = inr b
    ∧ single_bound (wf_edges (Trans.graph b))
    ∧ acyclic (wf_edges (Trans.graph b))
    ∧ Trans.nodes b Trans.inputnode = Trans.Identity "inputnode" ins
    ∧ Trans.nodes b Trans.outputnode = Trans.Identity "outputnode" outs
    ∧ Forall (consumed (wf_edges (Trans.graph b)) Trans.inputnode) ins
    ∧ Forall (produced (wf_edges (Trans.graph b)) Trans.outputnode) outs
    ∧ Trans.nodes b Trans.bold_transform
      = Trans.Slice_applyTransforms "bold_transform" true
          isotropic_resampling upsampling data_type
    ∧ producer (Trans.graph b) Trans.outputnode "bold"
      = [(Trans.merge, "out_file")]
    ∧ producer (Trans.graph b) Trans.outputnode "bold_ref"
      = [(Trans.bold_reference_wf, "outputnode.ref_image")]
    ∧ producer (Trans.graph b) Trans.bold_reference_wf
        "inputnode.bold_file"
      = [(Trans.merge, "out_file")]
    ∧ producer (Trans.graph b) Trans.merge "header_source"
      = [(Trans.inputnode, "name_source")]
    ∧ ports_exist (λ s, Trans.ports (Trans.nodes b s))
        (λ s, Trans.ports (Trans.nodes b s)) (wf_edges (Trans.graph b)).
Proof.
  do 3 eexists. split; [vm_compute; reflexivity|].
  split; [compute_done|].
  split.
  { apply (ranked_acyclic (λ s,
      match s with
      | Trans.inputnode => 0
      | Trans.bold_transform => 1
      | Trans.merge => 2
      | Trans.bold_reference_wf => 3
      | Trans.outputnode => 4
      end)); compute_done. }
  do 2 (split; [reflexivity|]).
  do 2 (split; [compute_done|]).
  split; [reflexivity|].
  do 4 (split; [by vm_compute|]).
  compute_done.
Qed.

(** The main workflow is evaluated flag by flag, with the estimates kept as
    they are. *)
Ltac main_cases c :=
  destruct c as [f omp syn tr stc n4 gsr nm];
  unfold set_TR, set_bold_file, Main.init_func_preproc_wf;
  cbn [Main.bold_file Main.apply_GSR Main.apply_STC Main.TR
       Main.iterative_N4 Main.use_syn Main.omp_nthreads Main.name];
  destruct (Main._create_mem_gb f) as [tlen mem];
  destruct stc, gsr.

(** X11: in the graph that [init_func_preproc_wf] wires, for every
    configuration, no input port is bound twice, no stage reaches itself,
    and every port used on the identity nodes and on the nested confound
    workflow is declared there: the fields of inputnode, outputnode and
    boldbuffer, and the inputnode and outputnode fields of the confound
    workflow. *)
Theorem main_workflow_is_well_wired (c : Main.config) :
  ∃ b,
    Main.init_func_preproc_wf c = inr b
    ∧ single_bound (wf_edges (Main.graph b))
    ∧ acyclic (wf_edges (Main.graph b))
    ∧ ports_exist (main_inputs b) (main_outputs b)
        (wf_edges (Main.graph b)).
Proof.
  main_cases c;
    (eexists; split; [vm_compute; reflexivity|]);
    (split; [compute_done|]);
    (split; [|compute_done]);
    apply (ranked_acyclic main_rank); compute_done.
Qed.

(** X12: in every configuration, every field of the main workflow's input
    node is read except reversed_bold_file, and every field of its output
    node is written except skip_vols. *)
Theorem main_workflow_unconnected_ports (c : Main.config) :
  ∃ b ins outs,
    Main.init_func_preproc_wf c = inr b
    ∧ Main.nodes b Main.inputnode = Some (Main.Identity "inputnode" ins)
    ∧ Main.nodes b Main.outputnode = Some (Main.Identity "outputnode" outs)
    ∧ Forall (λ p, consumed (wf_edges (Main.graph b)) Main.inputnode p
                   ↔ p ≠ "reversed_bold_file") ins
    ∧ Forall (λ p, produced (wf_edges (Main.graph b)) Main.outputnode p
                   ↔ p ≠ "skip_vols") outs.
Proof.
  main_cases c;
    (do 3 eexists; split; [vm_compute; reflexivity|]);
    do 2 (split; [reflexivity|]);
    split; compute_done.
Qed.

(** X13: the confound workflow's GSR_cleaned_bold output has a producer
    exactly when apply_GSR is on, while the main workflow wires that output
    to its own GSR_cleaned_bold output in every configuration. *)
Theorem gsr_output_is_wired_even_when_unproduced (c : Main.config) :
  ∃ b confs,
    Main.init_func_preproc_wf c = inr b
    ∧ Main.confs_of b = Some confs
    ∧ (produced (wf_edges (Confs.graph confs)) Confs.outputnode
         "GSR_cleaned_bold" ↔ Main.apply_GSR c = true)
    ∧ producer (Main.graph b) Main.outputnode "GSR_cleaned_bold"
      = [(Main.bold_confs_wf, "outputnode.GSR_cleaned_bold")].
Proof.
  main_cases c;
    (do 2 eexists; split; [vm_compute; reflexivity|]);
    (split; [reflexivity|]);
    (split; [by_evaluation|by vm_compute]).
Qed.

(** X14: the series given to the one-shot resampling passes through
    boldbuffer, which is fed by the slice-timing workflow when apply_STC is
    on and by the reference workflow's series otherwise; the slice-timing
    workflow itself reads the reference workflow's series. *)
Theorem boldbuffer_routes_the_series (c : Main.config) :
  ∃ b,
    Main.init_func_preproc_wf c = inr b
    ∧ producer (Main.graph b) Main.bold_bold_trans_wf "inputnode.bold_file"
      = [(Main.boldbuffer, "bold_file")]
    ∧ producer (Main.graph b) Main.boldbuffer "bold_file"
      = [if Main.apply_STC c
         then (Main.bold_stc_wf, "outputnode.stc_file")
         else (Main.bold_reference_wf, "outputnode.bold_file")]
    ∧ producer (Main.graph b) Main.bold_stc_wf "inputnode.bold_file"
      = (if Main.apply_STC c
         then [(Main.bold_reference_wf, "outputnode.bold_file")]
         else [])
    ∧ producer (Main.graph b) Main.bold_confs_wf "inputnode.bold"
      = [(Main.bold_bold_trans_wf, "outputnode.bold")].
Proof.
  main_cases c;
    (eexists; split; [vm_compute; reflexivity|]);
    repeat split; by vm_compute.
Qed.

(** X15: the repetition time reaches the slice-timing node and nothing
    else: changing it leaves the graph and every other node as they are,
    and with apply_STC off the whole built workflow. *)
Theorem repetition_time_reaches_only_slice_timing
    (c : Main.config) (tr' : Q) :
  ∃ b b',
    Main.init_func_preproc_wf c = inr b
    ∧ Main.init_func_preproc_wf (set_TR tr' c) = inr b'
    ∧ Main.graph b' = Main.graph b
    ∧ (∀ s, s ≠ Main.bold_stc_wf → Main.nodes b' s = Main.nodes b s)
    ∧ Main.nodes b Main.bold_stc_wf
      = (if Main.apply_STC c then Some (Main.Init_bold_stc_wf (Main.TR c))
         else None)
    ∧ Main.nodes b' Main.bold_stc_wf
      = (if Main.apply_STC c then Some (Main.Init_bold_stc_wf tr')
         else None).
Proof.
  main_cases c;
    (do 2 eexists; split; [vm_compute; reflexivity|]);
    (split; [vm_compute; reflexivity|]);
    (split; [reflexivity|]);
    (split; [by intros []|]);
    split; reflexivity.
Qed.

(** X16: of the BOLD file only the size reaches the built workflow: the
    motion-estimation workflow is given the base estimate and the one-shot
    resampling 4 times the base, with the thread count and use_fieldwarp
    on; the series length and the high-memory estimate reach no node, so a
    file of the same size builds the same workflow. *)
Theorem only_the_file_size_reaches_the_workflow (c : Main.config) :
  ∃ b,
    Main.init_func_preproc_wf c = inr b
    ∧ Main.nodes b Main.bold_hmc_wf
      = Some (Main.Init_bold_hmc_wf "bold_hmc_wf"
                (inject_Z (Main.getsize (Main.bold_file c))
                 / inject_Z (1024 ^ 3))%Q)
    ∧ Main.nodes b Main.bold_bold_trans_wf
      = Some (Main.Init_bold_preproc_trans_wf
                (inject_Z (Main.getsize (Main.bold_file c))
                 / inject_Z (1024 ^ 3) * 4)%Q
                (Main.omp_nthreads c) true "bold_bold_trans_wf")
    ∧ ∀ f',
        Main.getsize f' = Main.getsize (Main.bold_file c) →
        Main.init_func_preproc_wf (set_bold_file f' c) = inr b.
Proof.
  destruct c as [[size len] omp syn tr stc n4 gsr nm].
  unfold set_bold_file, Main.init_func_preproc_wf, Main._create_mem_gb.
  cbn [Main.bold_file Main.apply_GSR Main.apply_STC Main.TR
       Main.iterative_N4 Main.use_syn Main.omp_nthreads Main.name
       Main.getsize Main.shape_last Main.filesize Main.resampled].
  remember (inject_Z size / inject_Z (1024 ^ 3))%Q as base eqn:Hbase.
  destruct stc, gsr;
    (eexists; split; [vm_compute; reflexivity|]);
    do 2 (split; [reflexivity|]);
    intros [size' len']; cbn [Main.getsize Main.shape_last];
    intros ->; rewrite <-Hbase; by vm_compute.
Qed.

(** ** The common-space workflow and its environment *)

(** X17: [init_bold_commonspace_trans_wf] reads five names from the
    environment, in a fixed order and before it connects anything: it can
    return, or reach its connect call, only when all five are in the
    environment, and a KeyError it raises is for the first of them, in
    reading order, that is missing. *)
Theorem commonspace_workflow_needs_its_environment {A B : Type}
    (env : gmap string string) (isotropic_resampling : A) (upsampling : B)
    (data_type name : string) :
  match Commonspace.init_bold_commonspace_trans_wf env isotropic_resampling
          upsampling data_type name with
  | inl (Commonspace.KeyError k) =>
      ∃ before after,
        Commonspace.environ_keys = before ++ k :: after
        ∧ Forall (λ k', is_Some (env !! k')) before
        ∧ env !! k = None
  | _ => Forall (λ k, is_Some (env !! k)) Commonspace.environ_keys
  end.
Proof.
  unfold Commonspace.init_bold_commonspace_trans_wf, Commonspace.environ,
    Commonspace.environ_keys.
  destruct (env !! "template_anat") as [v1|] eqn:E1; cbn [mbind
    Commonspace.build_bind].
  2: { exists [], ["WM_mask"; "CSF_mask"; "template_mask"; "atlas_labels"].
       by repeat split. }
  destruct (env !! "WM_mask") as [v2|] eqn:E2; cbn [mbind
    Commonspace.build_bind].
  2: { exists ["template_anat"],
         ["CSF_mask"; "template_mask"; "atlas_labels"].
       repeat split; [|done]. by repeat constructor. }
  destruct (env !! "CSF_mask") as [v3|] eqn:E3; cbn [mbind
    Commonspace.build_bind].
  2: { exists ["template_anat"; "WM_mask"],
         ["template_mask"; "atlas_labels"].
       repeat split; [|done]. by repeat constructor. }
  destruct (env !! "template_mask") as [v4|] eqn:E4; cbn [mbind
    Commonspace.build_bind].
  2: { exists ["template_anat"; "WM_mask"; "CSF_mask"], ["atlas_labels"].
       repeat split; [|done]. by repeat constructor. }
  destruct (env !! "atlas_labels") as [v5|] eqn:E5; cbn [mbind
    Commonspace.build_bind].
  2: { exists ["template_anat"; "WM_mask"; "CSF_mask"; "template_mask"], [].
       repeat split; [|done]. by repeat constructor. }
  assert (Forall (λ k, is_Some (env !! k))
            ["template_anat"; "WM_mask"; "CSF_mask"; "template_mask";
             "atlas_labels"]) as Hall by (by repeat constructor).
  match goal with
  | |- context [Commonspace.connected ?x] => destruct x as [e|wf]
  end; exact Hall.
Qed.

(** X18: with the five names in the environment the common-space workflow
    is built; no input port is bound twice, no stage reaches itself and all
    declared fields are connected; the transform node takes the template
    from the environment as its reference and applies no motion correction;
    each mask stage takes its mask from the environment and its reference
    from the reference computed on the merged series. *)
Theorem commonspace_workflow_is_well_wired {A B : Type}
    (env : gmap string string) (isotropic_resampling : A) (upsampling : B)
    (data_type name : string) (anat wm csf mask labels : string) :
  env !! "template_anat" = Some anat →
  env !! "WM_mask" = Some wm →
  env !! "CSF_mask" = Some csf →
  env !! "template_mask" = Some mask →
  env !! "atlas_labels" = Some labels →
  ∃ b ins outs,
    Commonspace.init_bold_commonspace_trans_wf env isotropic_resampling
      upsampling data_type name = inr b
    ∧ single_bound (wf_edges (Commonspace.graph b))
    ∧ acyclic (wf_edges (Commonspace.graph b))
    ∧ Commonspace.nodes b Commonspace.inputnode
      = Commonspace.Identity "inputnode" ins
    ∧ Commonspace.nodes b Commonspace.outputnode
      = Commonspace.Identity "outputnode" outs
    ∧ Forall (consumed (wf_edges (Commonspace.graph b))
                Commonspace.inputnode) ins
    ∧ Forall (produced (wf_edges (Commonspace.graph b))
                Commonspace.outputnode) outs
    ∧ Commonspace.nodes b Commonspace.bold_transform
      = Commonspace.Slice_applyTransforms "bold_transform" anat false
          isotropic_resampling upsampling data_type
    ∧ Commonspace.nodes b Commonspace.WM_mask_to_EPI
      = Commonspace.Mask_EPI "WM_mask_EPI" "commonspace_WM_mask" wm
    ∧ Commonspace.nodes b Commonspace.CSF_mask_to_EPI
      = Commonspace.Mask_EPI "CSF_mask_EPI" "commonspace_CSF_mask" csf
    ∧ Commonspace.nodes b Commonspace.brain_mask_to_EPI
      = Commonspace.Mask_EPI "Brain_mask_EPI" "commonspace_brain_mask" mask
    ∧ Commonspace.nodes b Commonspace.propagate_labels
      = Commonspace.Mask_EPI "prop_labels_EPI" "commonspace_anat_labels"
          labels
    ∧ Forall (λ s, producer (Commonspace.graph b) s "ref_EPI"
                   = [(Commonspace.bold_reference_wf,
                       "outputnode.ref_image")])
        [Commonspace.WM_mask_to_EPI; Commonspace.CSF_mask_to_EPI;
         Commonspace.brain_mask_to_EPI; Commonspace.propagate_labels]
    ∧ producer (Commonspace.graph b) Commonspace.bold_reference_wf
        "inputnode.bold_file"
      = [(Commonspace.merge, "out_file")].
Proof.
  intros E1 E2 E3 E4 E5.
  unfold Commonspace.init_bold_commonspace_trans_wf, Commonspace.environ.
  rewrite E1, E2, E3, E4, E5. clear E1 E2 E3 E4 E5.
  do 3 eexists. split; [vm_compute; reflexivity|].
  split; [compute_done|].
  split.
  { apply (ranked_acyclic (λ s,
      match s with
      | Commonspace.inputnode => 0
      | Commonspace.bold_transform => 1
      | Commonspace.merge => 2
      | Commonspace.bold_reference_wf => 3
      | Commonspace.WM_mask_to_EPI | Commonspace.CSF_mask_to_EPI
      | Commonspace.brain_mask_to_EPI | Commonspace.propagate_labels => 4
      | Commonspace.outputnode => 5
      end)); compute_done. }
  do 2 (split; [reflexivity|]).
  do 2 (split; [compute_done|]).
  do 5 (split; [reflexivity|]).
  split; [by repeat constructor|by vm_compute].
Qed.

Lemma commonspace_workflow_is_well_wired_witness :
  ∃ b,
    Commonspace.init_bold_commonspace_trans_wf Samples.environment
      true 2%Z "float64" "bold_commonspace_trans_wf" = inr b
    ∧ acyclic (wf_edges (Commonspace.graph b)).
Proof.
  edestruct (commonspace_workflow_is_well_wired Samples.environment
               true 2%Z "float64" "bold_commonspace_trans_wf")
    as (b & ins & outs & Hb & _ & Hacyclic & _).
  - vm_compute; reflexivity.
  - vm_compute; reflexivity.
  - vm_compute; reflexivity.
  - vm_compute; reflexivity.
  - vm_compute; reflexivity.
  - exists b. split; [exact Hb|exact Hacyclic].
Defined.
